(** * wa-evolution-api: the opt-in rate limiter and the health reporter

    A shallow embedding of
      - [src/custom/middleware/rate-limit.middleware.ts]
        (class [RateLimitMiddleware]) and
      - [src/custom/controllers/health.controller.ts]
        (class [CustomHealthController]),
    with the properties the specification states about them.

    Conventions of the embedding.
      - A JavaScript number that the code computes with (counters, epoch
        milliseconds, seconds) is an integer of [Z]. The code only adds,
        multiplies by 1000, compares and rounds up quotients by 1000; on
        doubles these are the operations of [Z] as long as the values stay
        below [2^53] in magnitude, a range that holds every valid date.
        Numbers read from the environment are kept apart as [Config.num],
        because [Number] may yield [NaN], an infinity or a fraction there.
      - A character of a text is a code unit below 256, which is what a
        header value holds; the texts of the environment and of the query
        string are taken in that range.
      - The texts of the store are read by [JSON_parse], which reads the
        records as the limiter writes them; any other text counts as one
        that does not parse.
      - An [async] method is a function in the monad [Js.M]: it threads the
        state of the shared store and either resolves or throws.
      - [Date.now()] is a reading of a clock the caller passes in, one per
        call site, so that time may pass between two statements.
      - Requests are handled one after the other; the race between
        concurrent requests of one caller, which the specification
        accepts, is outside the embedding.
      - Logging is not modelled: the logger never throws and nothing reads
        what it wrote. *)

From Stdlib Require Import ZArith String Ascii List Bool Lia DecimalString DecimalZ.
From stdpp Require Import base option gmap strings.

#[local] Open Scope string_scope.
#[local] Open Scope Z_scope.

(** ** JavaScript values and effects *)

Module Js.

(** The result of awaiting a promise: it resolved to a value or it threw. *)
Inductive outcome (A : Type) : Type :=
| Resolved (a : A)
| Thrown (e : string).
Arguments Resolved {A} a.
Arguments Thrown {A} e.

(** An [async] computation over a store of type [S]. *)
Definition M (S A : Type) : Type := S -> outcome A * S.

Definition ret {S A} (a : A) : M S A := fun s => (Resolved a, s).

Definition throw {S A} (e : string) : M S A := fun s => (Thrown e, s).

Definition bind {S A B} (m : M S A) (k : A -> M S B) : M S B :=
  fun s => match m s with
           | (Resolved a, s') => k a s'
           | (Thrown e, s') => (Thrown e, s')
           end.

(** [try { body } catch (error) { handler }] *)
Definition try_catch {S A} (body : M S A) (handler : string -> M S A) : M S A :=
  fun s => match body s with
           | (Resolved a, s') => (Resolved a, s')
           | (Thrown e, s') => handler e s'
           end.

(** One entry of the array [Promise.allSettled] resolves to. *)
Inductive settled (A : Type) : Type :=
| Fulfilled (value : A)
| Rejected (reason : string).
Arguments Fulfilled {A} value.
Arguments Rejected {A} reason.

Definition settle {S A} (m : M S A) : M S (settled A) :=
  fun s => match m s with
           | (Resolved a, s') => (Resolved (Fulfilled a), s')
           | (Thrown e, s') => (Resolved (Rejected e), s')
           end.

Declare Scope js_scope.
Delimit Scope js_scope with js.
Notation "x <- m ;; k" := (bind m (fun x => k))
  (at level 100, m at next level, right associativity) : js_scope.
Notation "m ;;; k" := (bind m (fun _ => k))
  (at level 100, right associativity) : js_scope.

(** Truthiness of [string | undefined]: the empty string is falsy. *)
Definition truthy (o : option string) : bool :=
  match o with
  | Some s => negb (String.eqb s EmptyString)
  | None => false
  end.

(** [x || null] on [string | undefined]. *)
Definition or_null (o : option string) : option string :=
  if truthy o then o else None.

(** [Math.ceil(x / 1000)] for an integer [x]. *)
Definition ceil_div (x d : Z) : Z := - ((- x) / d).

(** [String(n)], and the text [JSON.stringify] gives for an integer [n]. *)
Definition String_of (n : Z) : string := NilZero.string_of_int (Z.to_int n).

(** The double quote, the one character a literal cannot hold directly. *)
Definition dquote : string := String (ascii_of_nat 34) EmptyString.

(** A time value is a valid date up to 8.64e15 milliseconds on either side
    of the epoch; [new Date(ms)] is an invalid date beyond. *)
Definition maxTime : Z := 8640000000000000.

Definition valid_date (ms : Z) : bool := (- maxTime <=? ms) && (ms <=? maxTime).

End Js.

Export Js.
#[local] Open Scope js_scope.

(** ** The stored record and its JSON text *)

Module Stored.

(** [interface RateLimitData] *)
Record RateLimitData : Type := {
  count : Z;
  resetAt : Z;
  blockedUntil : option Z;
}.

Definition member (name : string) (v : Z) : string :=
  dquote +:+ name +:+ dquote +:+ ":" +:+ String_of v.

(** [JSON.stringify(data)]: the members in the order the object got them,
    which is [count], [resetAt] and then [blockedUntil] when it is set. *)
Definition JSON_stringify (d : RateLimitData) : string :=
  "{" +:+ member "count" (count d) +:+ "," +:+ member "resetAt" (resetAt d)
      +:+ match blockedUntil d with
          | Some b => "," +:+ member "blockedUntil" b
          | None => EmptyString
          end
      +:+ "}".

Fixpoint strip_prefix (p s : string) : option string :=
  match p, s with
  | EmptyString, _ => Some s
  | String a p', String b s' => if Ascii.eqb a b then strip_prefix p' s' else None
  | String _ _, EmptyString => None
  end.

Definition is_digit (c : ascii) : bool :=
  (48 <=? nat_of_ascii c)%nat && (nat_of_ascii c <=? 57)%nat.

Definition is_num_char (c : ascii) : bool := Ascii.eqb c "-" || is_digit c.

Fixpoint span_num (s : string) : string * string :=
  match s with
  | String c s' =>
      if is_num_char c then let (n, r) := span_num s' in (String c n, r)
      else (EmptyString, s)
  | EmptyString => (EmptyString, EmptyString)
  end.

(** An integer in the form [JSON.stringify] writes it: no leading zero, no
    lone or doubled sign. *)
Definition read_int (s : string) : option (Z * string) :=
  let (n, r) := span_num s in
  match NilZero.int_of_string n with
  | Some i => if String.eqb (String_of (Z.of_int i)) n then Some (Z.of_int i, r) else None
  | None => None
  end.

Definition read_member (name s : string) : option (Z * string) :=
  s' ← strip_prefix (dquote +:+ name +:+ dquote +:+ ":") s; read_int s'.

(** [JSON.parse(dataStr)] on the texts the middleware writes. [None] is the
    [SyntaxError] of [JSON.parse]; the embedding also answers [None] for a
    text that is JSON but not a record of the middleware's own form. *)
Definition JSON_parse (s : string) : option RateLimitData :=
  s1 ← strip_prefix "{" s;
  '(c, s2) ← read_member "count" s1;
  s3 ← strip_prefix "," s2;
  '(r, s4) ← read_member "resetAt" s3;
  if String.eqb s4 "}" then
    Some {| count := c; resetAt := r; blockedUntil := None |}
  else
    s5 ← strip_prefix "," s4;
    '(b, s6) ← read_member "blockedUntil" s5;
    if String.eqb s6 "}" then
      Some {| count := c; resetAt := r; blockedUntil := Some b |}
    else None.

(** Every character of the text may be part of a number. *)
Fixpoint numeric (s : string) : Prop :=
  match s with
  | String c s' => is_num_char c = true /\ numeric s'
  | EmptyString => True
  end.

(** What may follow a number: the end of the text or a character that is
    no part of a number. *)
Definition ends_number (r : string) : Prop :=
  match r with
  | String c _ => is_num_char c = false
  | EmptyString => True
  end.

End Stored.

Export Stored.

(** ** The shared store *)

Module Cache.

(** The part of the host application's [CacheService] that the two modules
    call. The class itself belongs to the host; the customisation layer
    only sees this interface. Each operation is served at an instant [at]
    (epoch milliseconds) and may throw. *)
Record CacheService (S : Type) : Type := {
  cache_get : Z -> string -> M S (option string);
  cache_set : Z -> string -> string -> Z -> M S unit;
  cache_delete : Z -> string -> M S unit;
}.
Arguments cache_get {S} _ _ _.
Arguments cache_set {S} _ _ _ _ _.
Arguments cache_delete {S} _ _ _.

(** Modelled from the spec: what the shared store answers to a read at
    the instant [at_]. An entry is the text stored under a key and the
    instant at which the store drops it. *)
Definition live (s : gmap string (string * Z)) (at_ : Z) (key : string) : option string :=
  match s !! key with
  | Some (v, expires) => if at_ <? expires then Some v else None
  | None => None
  end.

(** Modelled from the spec: the shared key-value store with expiry, whose
    implementation is the host's. It never throws; [set] takes the expiry
    in seconds and replaces the entry of the key. *)
Definition MemoryCache : CacheService (gmap string (string * Z)) := {|
  cache_get at_ key := fun s => (Resolved (live s at_ key), s);
  cache_set at_ key value ttl := fun s =>
    (Resolved tt, <[key := (value, at_ + ttl * 1000)]> s);
  cache_delete at_ key := fun s => (Resolved tt, delete key s);
|}.

(** Modelled from the spec: a store that cannot be reached, so that every
    call throws. *)
Definition DownCache : CacheService unit := {|
  cache_get _ _ := throw "ECONNREFUSED";
  cache_set _ _ _ _ := throw "ECONNREFUSED";
  cache_delete _ _ := throw "ECONNREFUSED";
|}.

(** Modelled from the spec: a store that accepts every call and keeps
    nothing, as a cache service does with no engine configured behind it. *)
Definition NullCache : CacheService unit := {|
  cache_get _ _ := ret None;
  cache_set _ _ _ _ := ret tt;
  cache_delete _ _ := ret tt;
|}.

(** Modelled from the spec: a store that serves reads and refuses writes. *)
Definition ReadOnlyCache : CacheService (gmap string (string * Z)) := {|
  cache_get := cache_get MemoryCache;
  cache_set _ _ _ _ := throw "READONLY";
  cache_delete _ _ := throw "READONLY";
|}.

End Cache.

Export Cache.

(** ** The rate limiter *)

Module RateLimit.

(** [interface RateLimitConfig], over the type [N] of its numbers. *)
Record RateLimitConfig (N : Type) : Type := {
  enabled : bool;
  points : N;
  duration : N;
  blockDuration : N;
}.
Arguments enabled {N} _.
Arguments points {N} _.
Arguments duration {N} _.
Arguments blockDuration {N} _.

(** An Express request, as far as the middleware reads it. Header names
    are in lower case, as Node delivers them. *)
Record Request : Type := {
  headers : gmap string string;
  query : gmap string string;
}.

(** The value of a response header: [String(n)] of a number, or
    [toISOString()] of the date at an epoch millisecond. *)
Inductive HeaderValue : Type :=
| Num (n : Z)
| IsoDate (ms : Z).

(** The body of the 429 answer. *)
Record TooManyRequests : Type := {
  error : string;
  message : string;
  retryAfter : Z;
}.

(** How the middleware leaves the request: it calls [next()], or it sends
    [res.status(code).json(body)]. *)
Inductive Disposition : Type :=
| Next
| Json (code : Z) (body : TooManyRequests).

Record Response : Type := {
  sentHeaders : gmap string HeaderValue;
  disposition : Disposition;
}.

(** The readings of [Date.now()] while one request is handled, and the
    instants at which the store serves its two calls. *)
Record Clock : Type := {
  now : Z;        (* [const now = Date.now()] in [consume] *)
  at_get : Z;     (* the store serves [cache.get] *)
  at_set : Z;     (* the store serves [cache.set] *)
  at_check : Z;   (* [result.blockedUntil > Date.now()] *)
  at_retry : Z;   (* [Date.now()] inside [retryAfter] *)
}.

Definition keyPrefix : string := "ratelimit:apikey:".

(** *** [extractApiKey] *)

(** [\s] on the characters a header value can hold. *)
Definition is_space (c : ascii) : bool :=
  let n := nat_of_ascii c in
  ((9 <=? n) && (n <=? 13) || (n =? 32) || (n =? 160))%nat.

(** The characters [.] does not match. *)
Definition is_line_terminator (c : ascii) : bool :=
  let n := nat_of_ascii c in ((n =? 10) || (n =? 13))%nat.

Definition upper (c : ascii) : ascii :=
  let n := nat_of_ascii c in
  if ((97 <=? n) && (n <=? 122))%nat then ascii_of_nat (n - 32) else c.

(** A literal under the flag [i]. *)
Fixpoint strip_prefix_i (p s : string) : option string :=
  match p, s with
  | EmptyString, _ => Some s
  | String a p', String b s' =>
      if Ascii.eqb (upper a) (upper b) then strip_prefix_i p' s' else None
  | String _ _, EmptyString => None
  end.

Fixpoint span_space (s : string) : string * string :=
  match s with
  | String c s' =>
      if is_space c then let (w, r) := span_space s' in (String c w, r)
      else (EmptyString, s)
  | EmptyString => (EmptyString, EmptyString)
  end.

Fixpoint no_line_terminator (s : string) : bool :=
  match s with
  | String c s' => negb (is_line_terminator c) && no_line_terminator s'
  | EmptyString => true
  end.

Fixpoint last_char (s : string) : option ascii :=
  match s with
  | EmptyString => None
  | String c EmptyString => Some c
  | String _ s' => last_char s'
  end.

(** [authorization.match(/^Bearer\s+(.+)$/i)], answering the group
    [match[1]]. [\s+] is greedy: it takes every leading blank, and gives
    the last one back to the group only when nothing else follows. *)
Definition bearer_match (authorization : string) : option string :=
  rest ← strip_prefix_i "Bearer" authorization;
  let (blanks, token) := span_space rest in
  match blanks, token with
  | EmptyString, _ => None
  | String _ EmptyString, EmptyString => None
  | String _ _, EmptyString =>
      c ← last_char blanks;
      if is_line_terminator c then None else Some (String c EmptyString)
  | String _ _, String _ _ =>
      if no_line_terminator token then Some token else None
  end.

Definition extractApiKey (req : Request) : option string :=
  (* Try header first *)
  let apiKey := headers req !! "apikey" in
  (* Try authorization bearer token *)
  let apiKey :=
    match headers req !! "authorization" with
    | Some authorization =>
        if negb (truthy apiKey) && truthy (Some authorization) then
          match bearer_match authorization with
          | Some token => Some token
          | None => apiKey
          end
        else apiKey
    | None => apiKey
    end in
  (* Try query parameter *)
  let apiKey :=
    if negb (truthy apiKey) && truthy (query req !! "apikey")
    then query req !! "apikey" else apiKey in
  or_null apiKey.

(** *** [consume] *)

(** [data.blockedUntil && data.blockedUntil > t] *)
Definition blocked_at (data : RateLimitData) (t : Z) : bool :=
  match blockedUntil data with
  | Some b => negb (b =? 0) && (b >? t)
  | None => false
  end.

(** The expiry in seconds passed to [cache.set]. *)
Definition ttl_of (data : RateLimitData) (now : Z) : Z :=
  Z.max
    (match blockedUntil data with
     | Some b => if b =? 0 then 0 else ceil_div (b - now) 1000
     | None => 0
     end)
    (ceil_div (resetAt data - now) 1000).

Definition fresh (config : RateLimitConfig Z) (now : Z) : RateLimitData :=
  {| count := 1; resetAt := now + duration config * 1000; blockedUntil := None |}.

(** The [else] branch: count the request, and block once over the quota. *)
Definition increment (config : RateLimitConfig Z) (now : Z) (data : RateLimitData)
  : RateLimitData :=
  let n := count data + 1 in
  {| count := n;
     resetAt := resetAt data;
     blockedUntil := if n >? points config
                     then Some (now + blockDuration config * 1000)
                     else blockedUntil data |}.

Section WithCache.
Context {S : Type} (cache : CacheService S) (config : RateLimitConfig Z).

Definition save (key : string) (clk : Clock) (data : RateLimitData) : M S RateLimitData :=
  cache_set cache (at_set clk) key (JSON_stringify data) (ttl_of data (now clk)) ;;;
  ret data.

Definition consume (apiKey : string) (clk : Clock) : M S RateLimitData :=
  let key := keyPrefix +:+ apiKey in
  dataStr <- cache_get cache (at_get clk) key ;;
  if truthy dataStr then
    match JSON_parse (default EmptyString dataStr) with
    | None => throw "SyntaxError"
    | Some data =>
        (* Check if blocked *)
        if blocked_at data (now clk) then ret data
        (* Check if window has expired *)
        else if resetAt data <=? now clk then save key clk (fresh config (now clk))
        else save key clk (increment config (now clk) data)
    end
  else
    (* First request *)
    save key clk (fresh config (now clk)).

(** *** [middleware] *)

(** [new Date(ms).toISOString()]: the text of a valid date, and a
    [RangeError] for an invalid one. *)
Definition toISOString (ms : Z) : M S HeaderValue :=
  if valid_date ms then ret (IsoDate ms) else throw "RangeError: Invalid time value".

(** The object handed to [res.set], [reset] being the text of the date. *)
Definition rateLimitHeaders (result : RateLimitData) (reset : HeaderValue)
  : gmap string HeaderValue :=
  <["X-RateLimit-Limit" := Num (points config)]>
  (<["X-RateLimit-Remaining" := Num (Z.max 0 (points config - count result))]>
  (<["X-RateLimit-Reset" := reset]> ∅)).

Definition tooManyRequests (retryAfter : Z) : TooManyRequests :=
  {| error := "Too Many Requests";
     message := "Rate limit exceeded. Please try again later.";
     retryAfter := retryAfter |}.

(** [next()] with no header set. *)
Definition pass : Response := {| sentHeaders := ∅; disposition := Next |}.

(** What the middleware does once the headers [hs] are set: it answers
    429 to a blocked caller and calls [next()] otherwise. *)
Definition respond (hs : gmap string HeaderValue) (result : RateLimitData) (clk : Clock)
  : Response :=
  if blocked_at result (at_check clk) then
    let retryAfter :=
      ceil_div (default 0 (blockedUntil result) - at_retry clk) 1000 in
    {| sentHeaders := <["Retry-After" := Num retryAfter]> hs;
       disposition := Json 429 (tooManyRequests retryAfter) |}
  else {| sentHeaders := hs; disposition := Next |}.

Definition middleware (req : Request) (clk : Clock) : M S Response :=
  (* Skip if rate limiting is disabled *)
  if negb (enabled config) then ret pass
  else
    try_catch
      (match extractApiKey req with
       | None => ret pass   (* no API key: let the auth guard handle it *)
       | Some apiKey =>
           result <- consume apiKey clk ;;
           (* Add rate limit headers: the object is built, [toISOString]
              included, before [res.set] is called *)
           reset <- toISOString (resetAt result) ;;
           ret (respond (rateLimitHeaders result reset) result clk)
       end)
      (* On error, allow the request to proceed (fail open) *)
      (fun _ => ret pass).

(** A sequence of requests handled one after the other. *)
Fixpoint serve (reqs : list (Request * Clock)) : M S (list Response) :=
  match reqs with
  | [] => ret []
  | (req, clk) :: rest =>
      r <- middleware req clk ;;
      rs <- serve rest ;;
      ret (r :: rs)
  end.

End WithCache.

(** *** [maskApiKey] *)

(** [apiKey.substring(start)], up to the end of the text. *)
Definition substring_from (start : nat) (s : string) : string :=
  String.substring start (String.length s - start) s.

(** Mask API key for logging *)
Definition maskApiKey (apiKey : string) : string :=
  if (String.length apiKey <=? 8)%nat then "***"
  else String.substring 0 4 apiKey +:+ "***"
       +:+ substring_from (String.length apiKey - 4) apiKey.

(** *** Notions the properties are stated with *)

(** What [consume] does between its read and its write: the record it
    goes on with, and whether it saves it ([false] is the early return of
    a blocked caller). *)
Definition transition (config : RateLimitConfig Z) (now : Z) (dataStr : option string)
  : outcome (bool * RateLimitData) :=
  if truthy dataStr then
    match JSON_parse (default EmptyString dataStr) with
    | None => Thrown "SyntaxError"
    | Some data =>
        if blocked_at data now then Resolved (false, data)
        else if resetAt data <=? now then Resolved (true, fresh config now)
        else Resolved (true, increment config now data)
    end
  else Resolved (true, fresh config now).

(** An interaction with the shared store errors while the request of
    [apiKey] is handled: the read throws, the text read is not empty and
    does not parse, or the write that [consume] makes throws. *)
Inductive store_error {S : Type} (cache : CacheService S) (config : RateLimitConfig Z)
    (apiKey : string) (clk : Clock) (s : S) : Prop :=
| get_throws e s' :
    cache_get cache (at_get clk) (keyPrefix +:+ apiKey) s = (Thrown e, s') ->
    store_error cache config apiKey clk s
| record_corrupt text s' :
    cache_get cache (at_get clk) (keyPrefix +:+ apiKey) s = (Resolved (Some text), s') ->
    text <> EmptyString ->
    JSON_parse text = None ->
    store_error cache config apiKey clk s
| set_throws dataStr s1 data e s2 :
    cache_get cache (at_get clk) (keyPrefix +:+ apiKey) s = (Resolved dataStr, s1) ->
    transition config (now clk) dataStr = Resolved (true, data) ->
    cache_set cache (at_set clk) (keyPrefix +:+ apiKey) (JSON_stringify data)
              (ttl_of data (now clk)) s1 = (Thrown e, s2) ->
    store_error cache config apiKey clk s.

(** The number a response reports under a header, if it reports one. *)
Definition header_num (name : string) (r : Response) : option Z :=
  match sentHeaders r !! name with
  | Some (Num n) => Some n
  | _ => None
  end.

Definition header_date (name : string) (r : Response) : option Z :=
  match sentHeaders r !! name with
  | Some (IsoDate ms) => Some ms
  | _ => None
  end.

(** The response to the record [result] when the date of its [resetAt]
    can be printed. *)
Definition reply (config : RateLimitConfig Z) (result : RateLimitData) (clk : Clock)
  : Response :=
  respond (rateLimitHeaders config result (IsoDate (resetAt result))) result clk.

(** The text read under the key of [apiKey] is nothing, the empty text, or
    a record as the limiter itself writes it, with a count from zero
    below [2^53], the range in which a double counts by one. *)
Definition reads_own_record {S : Type} (cache : CacheService S) (apiKey : string)
    (clk : Clock) (s : S) : Prop :=
  forall text s',
    cache_get cache (at_get clk) (keyPrefix +:+ apiKey) s = (Resolved (Some text), s') ->
    text = EmptyString \/
    exists data, text = JSON_stringify data /\ 0 <= count data < 2 ^ 53.

(** The record can be answered to the letter: the quota is at most [2^53]
    and the count is from zero below [2^53], so that the allowance is the
    one the doubles give, and [resetAt] and [blockedUntil] are valid
    dates. *)
Definition answerable (config : RateLimitConfig Z) (data : RateLimitData) : Prop :=
  points config <= 2 ^ 53 /\
  0 <= count data < 2 ^ 53 /\
  valid_date (resetAt data) = true /\
  (forall b, blockedUntil data = Some b -> valid_date b = true).

(** The sources of the identity in the order the code tries them, and the
    first of them that is there. *)
Definition non_empty (o : option string) : option string :=
  match o with
  | Some EmptyString => None
  | _ => o
  end.

Definition candidates (req : Request) : list (option string) :=
  [ non_empty (headers req !! "apikey");
    headers req !! "authorization" ≫= bearer_match;
    non_empty (query req !! "apikey") ].

Fixpoint first_match (l : list (option string)) : option string :=
  match l with
  | [] => None
  | Some k :: _ => Some k
  | None :: l' => first_match l'
  end.

(** *** The identity by the words of the specification *)

(** A blank of [\s] among the characters of a header value: tab, line
    feed, vertical tab, form feed, carriage return, space and no-break
    space. *)
Definition blank (c : ascii) : Prop :=
  In (nat_of_ascii c) [9; 10; 11; 12; 13; 32; 160]%nat.

(** A line break, the character [.] does not match: line feed and
    carriage return. *)
Definition line_break (c : ascii) : Prop := In (nat_of_ascii c) [10; 13]%nat.

(** The same letter in either case, or the same character. *)
Definition same_letter (a b : ascii) : Prop :=
  a = b \/
  ((65 <= nat_of_ascii a <= 90)%nat /\ nat_of_ascii b = (nat_of_ascii a + 32)%nat) \/
  ((65 <= nat_of_ascii b <= 90)%nat /\ nat_of_ascii a = (nat_of_ascii b + 32)%nat).

(** The text [s] is the word [word] in any mix of cases. *)
Fixpoint any_case (word s : string) : Prop :=
  match word, s with
  | EmptyString, EmptyString => True
  | String a word', String b s' => same_letter a b /\ any_case word' s'
  | _, _ => False
  end.

Fixpoint every (P : ascii -> Prop) (s : string) : Prop :=
  match s with
  | String c s' => P c /\ every P s'
  | EmptyString => True
  end.

(** One way to read the header as [Bearer], blanks and a token: the whole
    text is the scheme in any case, one or more blanks, and one or more
    characters none of which is a line break. *)
Definition bearer_split (authorization scheme blanks token : string) : Prop :=
  authorization = scheme +:+ blanks +:+ token /\
  any_case "Bearer" scheme /\
  blanks <> EmptyString /\ every blank blanks /\
  token <> EmptyString /\ every (fun c => ~ line_break c) token.

(** The token of a bearer-scheme header: [\s+] is greedy, so among the
    ways to read the header the token is the one after the longest run of
    blanks. *)
Definition bearer_token (authorization token : string) : Prop :=
  exists scheme blanks,
    bearer_split authorization scheme blanks token /\
    forall scheme' blanks' token',
      bearer_split authorization scheme' blanks' token' ->
      (String.length blanks' <= String.length blanks)%nat.

(** A source gives the credential [k]: it is there and not empty. *)
Definition given (source : option string) (k : string) : Prop :=
  source = Some k /\ k <> EmptyString.

(** A source gives nothing: it is absent or empty. *)
Definition absent (source : option string) : Prop :=
  source = None \/ source = Some EmptyString.

(** The identity of a request by ordered preference: the credential
    header; failing that, the token of a bearer-scheme authorization
    header; failing that, the credential parameter of the query string. *)
Inductive identity_of (req : Request) (k : string) : Prop :=
| by_header :
    given (headers req !! "apikey") k ->
    identity_of req k
| by_bearer authorization :
    absent (headers req !! "apikey") ->
    headers req !! "authorization" = Some authorization ->
    bearer_token authorization k ->
    identity_of req k
| by_query :
    absent (headers req !! "apikey") ->
    (forall authorization token,
       headers req !! "authorization" = Some authorization ->
       ~ bearer_token authorization token) ->
    given (query req !! "apikey") k ->
    identity_of req k.

(** *** Notions about the store *)

(** The store keeps the record [data] of [apiKey], at least until the
    window of the record ends. *)
Definition holds (s : gmap string (string * Z)) (apiKey : string) (data : RateLimitData)
  : Prop :=
  exists text expires,
    s !! (keyPrefix +:+ apiKey) = Some (text, expires) /\
    JSON_parse text = Some data /\
    resetAt data <= expires.

(** Every record in the store is kept at least until its window ends. *)
Definition sound (s : gmap string (string * Z)) : Prop :=
  forall key text expires data,
    s !! key = Some (text, expires) ->
    JSON_parse text = Some data ->
    resetAt data <= expires.

(** The request is handled before the instant [w], and its write is not
    served before its clock was read. *)
Definition before (w : Z) (clk : Clock) : Prop :=
  now clk < w /\ at_get clk < w /\ now clk <= at_set clk.

(** The store after the request of [apiKey] at [clk] wrote [data]. *)
Definition written (clk : Clock) (apiKey : string) (data : RateLimitData)
    (s : gmap string (string * Z)) : gmap string (string * Z) :=
  <[keyPrefix +:+ apiKey :=
      (JSON_stringify data, at_set clk + ttl_of data (now clk) * 1000)]> s.

(** The record after one more request inside its window: unchanged
    while the caller is blocked, counted otherwise. *)
Definition counted (config : RateLimitConfig Z) (t : Z) (data : RateLimitData)
  : RateLimitData :=
  if blocked_at data t then data else increment config t data.

(** The request of [apiKey] at [clk] opens a window: it finds no record,
    or one whose window is over and whose block, if any, has ended. *)
Definition opens_window (config : RateLimitConfig Z) (s : gmap string (string * Z))
    (apiKey : string) (clk : Clock) : Prop :=
  transition config (now clk) (live s (at_get clk) (keyPrefix +:+ apiKey))
  = Resolved (true, fresh config (now clk)).

(** The requests of a trace that carry the identity [apiKey]. *)
Definition requests_of (apiKey : string) (trace : list (Request * Clock))
  : list (Request * Clock) :=
  filter (fun p => extractApiKey (fst p) = Some apiKey) trace.

(** Every character of the text is a blank of [\s]. *)
Fixpoint all_space (s : string) : bool :=
  match s with
  | String c s' => is_space c && all_space s'
  | EmptyString => true
  end.

(** The text starts with a blank of [\s]. *)
Definition leading_space (s : string) : bool :=
  match s with
  | String c _ => is_space c
  | EmptyString => false
  end.

(** The record [data] lies under the key of [apiKey] with the expiry
    [expires]. *)
Definition stored (s : gmap string (string * Z)) (apiKey : string)
    (data : RateLimitData) (expires : Z) : Prop :=
  exists text, s !! (keyPrefix +:+ apiKey) = Some (text, expires) /\
    JSON_parse text = Some data.

(** What the limiter keeps true of a record it wrote: at least one request
    is counted, and a block is set exactly when the count is over the
    quota. *)
Definition well_formed (config : RateLimitConfig Z) (data : RateLimitData) : Prop :=
  1 <= count data /\ (is_Some (blockedUntil data) <-> points config < count data).

(** Every record in the store is well formed. *)
Definition all_well_formed (config : RateLimitConfig Z) (s : gmap string (string * Z))
  : Prop :=
  forall key text expires data,
    s !! key = Some (text, expires) -> JSON_parse text = Some data ->
    well_formed config data.

(** The record counts the [n] requests that the identity made in the
    window, or it stopped counting them because the quota was passed; and
    it is blocked only with a count over the quota. *)
Definition accounts_for (config : RateLimitConfig Z) (data : RateLimitData) (n : Z)
  : Prop :=
  count data <= n /\
  (count data < n -> points config < count data) /\
  (is_Some (blockedUntil data) -> points config < count data).

(** The request is handled while the block that ends at [b] lasts, and
    while the store still keeps the entry that expires at [expires]. *)
Definition during_block (b expires : Z) (clk : Clock) : Prop :=
  now clk < b /\ at_check clk < b /\ at_get clk < expires.

End RateLimit.

Export RateLimit.

(** ** The configuration read from the environment *)

Module Config.

(** A JavaScript number as [Number(text)] yields it: [Finite m e] is the
    decimal [m * 10^e] that the text denotes, before it is rounded to a
    double. Rounding keeps the sign, and it turns a decimal other than
    zero into zero only by underflow, which [underflows] accounts for; a
    decimal too large for a double is rounded to an infinity, which is as
    truthy and as signed as the decimal. What the rounded number is
    matters where the number is computed with, and [integral] gives it. *)
Inductive num : Type :=
| NaN
| Infinity (minus : bool)
| Finite (mantissa exponent : Z).

Definition of_Z (z : Z) : num := Finite z 0.

(** Rounding to the nearest double gives zero exactly up to half of the
    least positive double, [2^-1075]. *)
Definition underflows (m e : Z) : bool :=
  (e <? 0) && (Z.abs m * 2 ^ 1075 <=? 10 ^ (- e)).

(** [!n]: [NaN], [+0] and [-0] are the falsy numbers. *)
Definition falsy (n : num) : bool :=
  match n with
  | NaN => true
  | Infinity _ => false
  | Finite m e => (m =? 0) || underflows m e
  end.

(** [n > 0] *)
Definition gt_zero (n : num) : bool :=
  match n with
  | NaN => false
  | Infinity minus => negb minus
  | Finite m e => (0 <? m) && negb (underflows m e)
  end.

(** [n < 0] *)
Definition lt_zero (n : num) : bool :=
  match n with
  | NaN => false
  | Infinity minus => minus
  | Finite m e => (m <? 0) && negb (underflows m e)
  end.

(** The double nearest to the positive rational [n / d], ties going to the
    even significand: the pair [(q, x)] stands for [q * 2^x], where [q] has
    at most 53 bits and [x] is no less than -1074, the exponent of the
    least positive double. *)
Definition nearest_double (n d : Z) : Z * Z :=
  let l := Z.log2 n - Z.log2 d in
  (* the integer part of [log2 (n / d)] *)
  let k := if (if 0 <=? l then d * 2 ^ l <=? n else d <=? n * 2 ^ (- l))
           then l else l - 1 in
  let x := Z.max (k - 52) (-1074) in
  let '(a, b) := if 0 <=? x then (n, d * 2 ^ x) else (n * 2 ^ (- x), d) in
  let q := a / b in
  let r := a mod b in
  (if (b <? 2 * r) || ((b =? 2 * r) && Z.odd q) then q + 1 else q, x).

(** The integer a number is, when the double it is rounded to is one.
    A double from [2^1024] on is an infinity. *)
Definition integral (n : num) : option Z :=
  match n with
  | Finite m e =>
      if m =? 0 then Some 0
      else
        let '(q, x) := if 0 <=? e then nearest_double (Z.abs m * 10 ^ e) 1
                       else nearest_double (Z.abs m) (10 ^ (- e)) in
        if (971 <? x) || ((x =? 971) && (2 ^ 53 <=? q)) then None
        else if 0 <=? x then Some (Z.sgn m * (q * 2 ^ x))
        else if q mod 2 ^ (- x) =? 0 then Some (Z.sgn m * (q / 2 ^ (- x)))
        else None
  | _ => None
  end.

(** *** [Number(text)] on the text of an environment variable *)

(** [StrWhiteSpaceChar] among the code units below 256: the white space
    and the line terminators, the no-break space included. *)
Definition is_white (c : ascii) : bool :=
  let n := nat_of_ascii c in
  (((9 <=? n) && (n <=? 13)) || (n =? 32) || (n =? 160))%nat.

Fixpoint drop_white (l : list ascii) : list ascii :=
  match l with
  | c :: l' => if is_white c then drop_white l' else l
  | [] => []
  end.

Definition trim (l : list ascii) : list ascii :=
  rev (drop_white (rev (drop_white l))).

(** The value of a digit in a base up to sixteen. *)
Definition digit_value (base : Z) (c : ascii) : option Z :=
  let n := Z.of_nat (nat_of_ascii c) in
  let v := if (48 <=? n) && (n <=? 57) then n - 48
           else if (97 <=? n) && (n <=? 102) then n - 87
           else if (65 <=? n) && (n <=? 70) then n - 55
           else base in
  if v <? base then Some v else None.

Fixpoint digits_from (base acc : Z) (l : list ascii) : option Z :=
  match l with
  | [] => Some acc
  | c :: l' => v ← digit_value base c; digits_from base (acc * base + v) l'
  end.

(** One or more digits of the base, and nothing else. *)
Definition digits (base : Z) (l : list ascii) : option Z :=
  match l with
  | [] => None
  | _ => digits_from base 0 l
  end.

Fixpoint span_digits (l : list ascii) : list ascii * list ascii :=
  match l with
  | c :: l' =>
      if is_digit c then let (d, r) := span_digits l' in (c :: d, r)
      else ([], l)
  | [] => ([], [])
  end.

Definition signed (l : list ascii) : bool * list ascii :=
  match l with
  | c :: l' =>
      if Ascii.eqb c "-" then (true, l')
      else if Ascii.eqb c "+" then (false, l')
      else (false, l)
  | [] => (false, [])
  end.

(** [ExponentPart], after its [e]. *)
Definition exponent_part (l : list ascii) : option Z :=
  let (neg, ds) := signed l in
  v ← digits 10 ds; Some (if neg then - v else v).

(** [StrUnsignedDecimalLiteral] other than [Infinity]: digits, an optional
    fraction, an optional exponent; at least one digit beside the point. *)
Definition unsigned_decimal (l : list ascii) : option (Z * Z) :=
  let (ip, r1) := span_digits l in
  let '(fp, r2) :=
    match r1 with
    | c :: r => if Ascii.eqb c "." then span_digits r else ([], r1)
    | [] => ([], r1)
    end in
  match (ip ++ fp)%list with
  | [] => None
  | ds =>
      m ← digits_from 10 0 ds;
      x ← match r2 with
          | [] => Some 0
          | c :: r => if Ascii.eqb c "e" || Ascii.eqb c "E"
                      then exponent_part r else None
          end;
      Some (m, x - Z.of_nat (length fp))
  end.

Definition str_decimal (l : list ascii) : num :=
  let (neg, body) := signed l in
  if String.eqb (string_of_list_ascii body) "Infinity" then Infinity neg
  else match unsigned_decimal body with
       | Some (m, e) => Finite (if neg then - m else m) e
       | None => NaN
       end.

(** [StringToNumber]: blanks around the literal are dropped, the empty
    text is zero, [0x], [0o] and [0b] start an unsigned integer in base
    16, 8 and 2, and anything else is a signed decimal or [NaN]. *)
Definition StringToNumber (s : string) : num :=
  match trim (list_ascii_of_string s) with
  | [] => Finite 0 0
  | z :: b :: ds =>
      if Ascii.eqb z "0" && (Ascii.eqb b "x" || Ascii.eqb b "X")
      then from_option of_Z NaN (digits 16 ds)
      else if Ascii.eqb z "0" && (Ascii.eqb b "o" || Ascii.eqb b "O")
      then from_option of_Z NaN (digits 8 ds)
      else if Ascii.eqb z "0" && (Ascii.eqb b "b" || Ascii.eqb b "B")
      then from_option of_Z NaN (digits 2 ds)
      else str_decimal (z :: b :: ds)
  | l => str_decimal l
  end.

(** [Number(process.env.X)]: an unset variable is [undefined]. *)
Definition Number (v : option string) : num :=
  match v with
  | Some s => StringToNumber s
  | None => NaN
  end.

(** [Number(v) || d] *)
Definition number_or (v : option string) (d : Z) : num :=
  let n := Number v in if falsy n then of_Z d else n.

(** [Partial<RateLimitConfig>], the second argument of the constructor. *)
Record PartialConfig : Type := {
  enabled_opt : option bool;
  points_opt : option num;
  duration_opt : option num;
  blockDuration_opt : option num;
}.

Definition no_override : PartialConfig :=
  {| enabled_opt := None; points_opt := None;
     duration_opt := None; blockDuration_opt := None |}.

(** The configuration the constructor stores in [this.config]: the
    environment first, then whatever [config] carries spread over it. *)
Definition constructor (env : gmap string string) (config : option PartialConfig)
  : RateLimitConfig num :=
  let o := default no_override config in
  {| enabled := default (bool_decide (env !! "RATE_LIMIT_ENABLED" = Some "true"))
                        (enabled_opt o);
     points := default (number_or (env !! "RATE_LIMIT_POINTS") 100) (points_opt o);
     duration := default (number_or (env !! "RATE_LIMIT_DURATION") 60) (duration_opt o);
     blockDuration := default (number_or (env !! "RATE_LIMIT_BLOCK_DURATION") 60)
                              (blockDuration_opt o) |}.

(** A setting [x] read from the variable [v] with the default [d]: the
    default when [Number(v)] is falsy and [Number(v)] otherwise, hence
    never [NaN] or zero, and positive unless the variable holds a
    negative number. *)
Definition falls_back (v : option string) (d : Z) (x : num) : Prop :=
  (falsy (Number v) = true -> x = of_Z d) /\
  (falsy (Number v) = false -> x = Number v) /\
  falsy x = false /\
  gt_zero x = negb (lt_zero (Number v)).

(** The configuration in the integers the limiter counts with, when all
    three settings are integers. *)
Definition integral_config (c : RateLimitConfig num) : option (RateLimitConfig Z) :=
  p ← integral (points c);
  d ← integral (duration c);
  b ← integral (blockDuration c);
  Some {| enabled := enabled c; points := p; duration := d; blockDuration := b |}.

(** Factory function to create rate limit middleware: the constructor,
    then the [middleware] of the object. A limiter that is switched off
    passes every request on, whatever its settings are. The embedding
    runs an enabled limiter on integers: [None] stands for the answer of
    one whose settings are not integers, which lies outside it. *)
Definition createRateLimitMiddleware {S : Type} (env : gmap string string)
    (cache : CacheService S) (config : option PartialConfig)
  : Request -> Clock -> option (M S Response) :=
  let this := constructor env config in
  fun req clk =>
    (* Skip if rate limiting is disabled *)
    if negb (enabled this) then Some (ret pass)
    else c ← integral_config this; Some (middleware cache c req clk).

End Config.

Export Config.

(** ** The health reporter *)

Module Health.

(** What a probe resolves to. The three probes answer objects of
    different shapes; one record with optional members holds them all,
    and [error] is the member [check] adds for a rejected probe. *)
Record ProbeResult : Type := {
  status : string;
  message : option string;
  latency : option Z;
  total : option Z;
  connected : option Z;
  disconnected : option Z;
  error : option string;
}.

Definition probe (status : string) : ProbeResult :=
  {| status := status; message := None; latency := None; total := None;
     connected := None; disconnected := None; error := None |}.

(** The host's [PrismaRepository], as far as the probe uses it:
    [instance.findMany({ take })] resolves or throws. *)
Record PrismaRepository : Type := {
  instance_findMany : Z -> outcome unit;
}.

(** A managed connection; [connectionStatus] is [i?.connectionStatus?.state]. *)
Record WAInstance : Type := {
  connectionStatus : option string;
}.

(** The host's [WAMonitoringService]: reading [waInstances] gives the
    values of the registry object, [undefined], or throws. *)
Record WAMonitoringService : Type := {
  waInstances : outcome (option (list (option WAInstance)));
}.

(** The collaborators handed to the constructor, each optional. *)
Record CustomHealthController (S : Type) : Type := {
  prismaRepository : option PrismaRepository;
  cache : option (CacheService S);
  waMonitor : option WAMonitoringService;
}.
Arguments prismaRepository {S} _.
Arguments cache {S} _.
Arguments waMonitor {S} _.

(** The readings of [Date.now()] and the instants of the store's calls
    while one health request is handled. *)
Record Clock : Type := {
  db_start : Z;
  db_end : Z;
  redis_start : Z;
  redis_key : Z;      (* [Date.now()] inside [testKey] *)
  at_set : Z;
  at_get : Z;
  at_delete : Z;
  redis_end : Z;
  timestamp : Z;      (* [new Date()] of the answer *)
}.

(** [process.env.npm_package_version] and [process.uptime()]. *)
Record Process : Type := {
  npm_package_version : option string;
  uptime : Z;
}.

Definition testKey (clk : Clock) : string := "health:check:" +:+ String_of (redis_key clk).

Definition open_state (i : option WAInstance) : bool :=
  match i with
  | Some {| connectionStatus := Some state |} => String.eqb state "open"
  | _ => false
  end.

Section WithController.
Context {S : Type} (this : CustomHealthController S).

(** Check database connectivity *)
Definition checkDatabase (clk : Clock) : M S ProbeResult :=
  match prismaRepository this with
  | None =>
      ret {| status := "disabled"; message := Some "Database not configured";
             latency := None; total := None; connected := None;
             disconnected := None; error := None |}
  | Some repo =>
      try_catch
        (fun s =>
           match instance_findMany repo 1 with
           | Resolved _ =>
               (Resolved {| status := "ok"; message := None;
                            latency := Some (db_end clk - db_start clk);
                            total := None; connected := None;
                            disconnected := None; error := None |}, s)
           | Thrown e => (Thrown e, s)
           end)
        (fun e => ret {| status := "error"; message := Some e; latency := None;
                         total := None; connected := None; disconnected := None;
                         error := None |})
  end.

(** Check Redis connectivity *)
Definition checkRedis (clk : Clock) : M S ProbeResult :=
  match cache this with
  | None =>
      ret {| status := "disabled"; message := Some "Redis not configured";
             latency := None; total := None; connected := None;
             disconnected := None; error := None |}
  | Some c =>
      try_catch
        (cache_set c (at_set clk) (testKey clk) "ok" 10 ;;;
         _ <- cache_get c (at_get clk) (testKey clk) ;;
         cache_delete c (at_delete clk) (testKey clk) ;;;
         ret {| status := "ok"; message := None;
                latency := Some (redis_end clk - redis_start clk);
                total := None; connected := None; disconnected := None;
                error := None |})
        (fun e => ret {| status := "error"; message := Some e; latency := None;
                         total := None; connected := None; disconnected := None;
                         error := None |})
  end.

(** Check WhatsApp instances status *)
Definition checkInstances : M S ProbeResult :=
  match waMonitor this with
  | None => ret (probe "disabled")
  | Some monitor =>
      try_catch
        (fun s =>
           match waInstances monitor with
           | Resolved instances =>
               let instanceList := default [] instances in
               let n := Z.of_nat (length (filter (fun i => open_state i = true) instanceList)) in
               (Resolved {| status := "ok"; message := None; latency := None;
                            total := Some (Z.of_nat (length instanceList));
                            connected := Some n;
                            disconnected := Some (Z.of_nat (length instanceList) - n);
                            error := None |}, s)
           | Thrown e => (Thrown e, s)
           end)
        (fun _ => ret {| status := "error"; message := None; latency := None;
                         total := Some 0; connected := Some 0;
                         disconnected := Some 0; error := None |})
  end.

(** The body of [GET /health]. *)
Record HealthReport : Type := {
  report_status : string;
  report_timestamp : Z;
  report_version : option string;
  report_uptime : option Z;
  report_checks : option (ProbeResult * ProbeResult * ProbeResult);
  report_error : option string;
}.

(** The body of [GET /health/ready]. *)
Record ReadinessReport : Type := {
  ready : bool;
  ready_timestamp : Z;
  ready_checks : option (ProbeResult * ProbeResult);
  ready_error : option string;
}.

(** The body of [GET /health/live]. *)
Record LivenessReport : Type := {
  alive : bool;
  alive_timestamp : Z;
}.

(** Detailed health check *)
Definition check (proc : Process) (clk : Clock) : M S (Z * HealthReport) :=
  try_catch
    (d <- settle (checkDatabase clk) ;;
     r <- settle (checkRedis clk) ;;
     i <- settle checkInstances ;;
     let value (x : settled ProbeResult) :=
       match x with
       | Fulfilled v => v
       | Rejected reason =>
           {| status := "error"; message := None; latency := None; total := None;
              connected := None; disconnected := None; error := Some reason |}
       end in
     let database := value d in
     let redis := value r in
     let instances := value i in
     let isHealthy := String.eqb (status database) "ok" && String.eqb (status redis) "ok" in
     ret (if isHealthy then 200 else 503,
          {| report_status := if isHealthy then "healthy" else "unhealthy";
             report_timestamp := timestamp clk;
             report_version := Some (if truthy (npm_package_version proc)
                                     then default EmptyString (npm_package_version proc)
                                     else "unknown");
             report_uptime := Some (uptime proc);
             report_checks := Some (database, redis, instances);
             report_error := None |}))
    (fun e => ret (503,
          {| report_status := "unhealthy"; report_timestamp := timestamp clk;
             report_version := None; report_uptime := None;
             report_checks := None; report_error := Some e |})).

(** Liveness probe *)
Definition liveness (clk : Clock) : M S (Z * LivenessReport) :=
  ret (200, {| alive := true; alive_timestamp := timestamp clk |}).

(** Readiness probe *)
Definition readiness (clk : Clock) : M S (Z * ReadinessReport) :=
  try_catch
    (dbCheck <- settle (checkDatabase clk) ;;
     redisCheck <- settle (checkRedis clk) ;;
     let value (x : settled ProbeResult) :=
       match x with
       | Fulfilled v => v
       | Rejected _ => probe "error"
       end in
     let dbResult := value dbCheck in
     let redisResult := value redisCheck in
     let isReady := String.eqb (status dbResult) "ok" && String.eqb (status redisResult) "ok" in
     if negb isReady then
       ret (503, {| ready := false; ready_timestamp := timestamp clk;
                    ready_checks := Some (dbResult, redisResult);
                    ready_error := None |})
     else
       ret (200, {| ready := true; ready_timestamp := timestamp clk;
                    ready_checks := None; ready_error := None |}))
    (fun e => ret (503, {| ready := false; ready_timestamp := timestamp clk;
                           ready_checks := None; ready_error := Some e |})).

(** The relational store answers: it is configured and the bounded read
    resolves. *)
Definition database_reachable : Prop :=
  exists repo, prismaRepository this = Some repo /\
    exists u, instance_findMany repo 1 = Resolved u.

(** The three calls of the cache probe, in the order the probe makes them;
    [v] is what the read returns. *)
Definition probe_calls (c : CacheService S) (clk : Clock) (s : S)
    (v : option string) (s' : S) : Prop :=
  exists s1 s2,
    cache_set c (at_set clk) (testKey clk) "ok" 10 s = (Resolved tt, s1) /\
    cache_get c (at_get clk) (testKey clk) s1 = (Resolved v, s2) /\
    cache_delete c (at_delete clk) (testKey clk) s2 = (Resolved tt, s').

(** The cache answers: it is configured and the three calls resolve. *)
Definition cache_reachable (clk : Clock) (s : S) : Prop :=
  exists c, cache this = Some c /\ exists v s', probe_calls c clk s v s'.

End WithController.

End Health.

(** ** Concrete inputs *)

Module Examples.

(** A health request at time zero, every reading the same. *)
Definition still : Health.Clock :=
  {| Health.db_start := 0; Health.db_end := 0; Health.redis_start := 0;
     Health.redis_key := 0; Health.at_set := 0; Health.at_get := 0;
     Health.at_delete := 0; Health.redis_end := 0; Health.timestamp := 0 |}.

(** A controller whose only collaborator is a cache that keeps nothing. *)
Definition forgetful : Health.CustomHealthController unit :=
  {| Health.prismaRepository := None;
     Health.cache := Some NullCache;
     Health.waMonitor := None |}.

(** A request whose clock shows [t] at every reading. *)
Definition at_ (t : Z) : RateLimit.Clock :=
  {| now := t; RateLimit.at_get := t; RateLimit.at_set := t;
     at_check := t; at_retry := t |}.

(** The documented defaults, switched on. *)
Definition defaults : RateLimitConfig Z :=
  {| enabled := true; points := 100; duration := 60; blockDuration := 60 |}.

(** A quota of one request and a cooldown of zero seconds, as
    [createRateLimitMiddleware(cache, { enabled: true, points: 1,
    blockDuration: 0 })] configures it. *)
Definition no_cooldown : RateLimitConfig Z :=
  {| enabled := true; points := 1; duration := 60; blockDuration := 0 |}.

(** A quota of two, the example of the specification. *)
Definition two_per_minute : RateLimitConfig Z :=
  {| enabled := true; points := 2; duration := 60; blockDuration := 60 |}.

(** A quota of one and a window of 8640000000001 seconds, which ends one
    second after the last valid date. *)
Definition endless_window : RateLimitConfig Z :=
  {| enabled := true; points := 1; duration := 8640000000001; blockDuration := 60 |}.

(** A request that carries no credential at all. *)
Definition anonymous : Request := {| headers := ∅; query := ∅ |}.

(** A request with the credential header [apikey: X]. *)
Definition from_X : Request := {| headers := {[ "apikey" := "X" ]}; query := ∅ |}.

(** A request with an empty credential header and the key [k] in the
    query string. *)
Definition empty_header_query_key : Request :=
  {| headers := {[ "apikey" := EmptyString ]}; query := {[ "apikey" := "k" ]} |}.

(** A request whose credential header is empty and that carries nothing
    else. *)
Definition empty_header : Request :=
  {| headers := {[ "apikey" := EmptyString ]}; query := ∅ |}.

(** A store in which the record of [X] is not JSON. *)
Definition corrupted : gmap string (string * Z) :=
  {[ "ratelimit:apikey:X" := ("{count:", 60000) ]}.

(** An environment that sets a negative quota. *)
Definition negative_quota : gmap string string :=
  {[ "RATE_LIMIT_ENABLED" := "true"; "RATE_LIMIT_POINTS" := "-5" ]}.

(** A request with the credential header [apikey: Y]. *)
Definition from_Y : Request := {| headers := {[ "apikey" := "Y" ]}; query := ∅ |}.

(** A request that carries a bearer token, the scheme in lower case. *)
Definition with_bearer : Request :=
  {| headers := {[ "authorization" := "bearer  abc" ]}; query := ∅ |}.

(** A quota of zero, as [createRateLimitMiddleware(cache, { enabled: true,
    points: 0 })] configures it. *)
Definition zero_quota : RateLimitConfig Z :=
  {| enabled := true; points := 0; duration := 60; blockDuration := 60 |}.

(** The record of a caller over a quota of two, blocked until 60020. *)
Definition over_quota : RateLimitData :=
  {| count := 3; resetAt := 60000; blockedUntil := Some 60020 |}.

(** A store that keeps that record for [X] until 60020. *)
Definition blocked_store : gmap string (string * Z) :=
  {[ "ratelimit:apikey:X" := (JSON_stringify over_quota, 60020) ]}.

(** A record of seven requests whose window ended at 60000. *)
Definition stale : RateLimitData :=
  {| count := 7; resetAt := 60000; blockedUntil := None |}.

(** A store that still keeps that record for [X], until 60500. *)
Definition stale_store : gmap string (string * Z) :=
  {[ "ratelimit:apikey:X" := (JSON_stringify stale, 60500) ]}.

(** Three requests of [X] in a row, one more than a quota of two. *)
Definition three_from_X : list (Request * RateLimit.Clock) :=
  [(from_X, at_ 0); (from_X, at_ 10); (from_X, at_ 20)].

(** The environment of the documentation. *)
Definition documented : gmap string string :=
  {[ "RATE_LIMIT_ENABLED" := "true"; "RATE_LIMIT_POINTS" := "100";
     "RATE_LIMIT_DURATION" := "60"; "RATE_LIMIT_BLOCK_DURATION" := "60" ]}.

(** An environment that switches the limiter on in capitals, and sets a
    window that is no integer. *)
Definition shouted : gmap string string :=
  {[ "RATE_LIMIT_ENABLED" := "TRUE"; "RATE_LIMIT_DURATION" := "0.5" ]}.

(** A registry of four entries, one of them open. *)
Definition registry : Health.WAMonitoringService :=
  {| Health.waInstances := Resolved (Some
       [ Some {| Health.connectionStatus := Some "open" |};
         Some {| Health.connectionStatus := Some "close" |};
         None;
         Some {| Health.connectionStatus := None |} ]) |}.

(** A controller whose three collaborators all work. *)
Definition working : Health.CustomHealthController (gmap string (string * Z)) :=
  {| Health.prismaRepository :=
       Some {| Health.instance_findMany := fun _ => Resolved tt |};
     Health.cache := Some MemoryCache;
     Health.waMonitor := Some registry |}.

(** [process] of a health request. *)
Definition process : Health.Process :=
  {| Health.npm_package_version := Some "2.3.7"; Health.uptime := 3600 |}.

End Examples.

(** * Properties of the health reporter *)

Section HealthFacts.
Import Health.
Context {S : Type}.
Implicit Types (this : CustomHealthController S) (clk : Clock) (s : S).

Ltac run_call :=
  match goal with
  | |- context [cache_set ?c ?t ?k ?v ?n ?s] =>
      let o := fresh "o" in let s' := fresh "s" in let E := fresh "E" in
      destruct (cache_set c t k v n s) as [o s'] eqn:E; destruct o as [[]|?]
  | |- context [cache_get ?c ?t ?k ?s] =>
      let o := fresh "o" in let s' := fresh "s" in let E := fresh "E" in
      destruct (cache_get c t k s) as [o s'] eqn:E; destruct o as [?|?]
  | |- context [cache_delete ?c ?t ?k ?s] =>
      let o := fresh "o" in let s' := fresh "s" in let E := fresh "E" in
      destruct (cache_delete c t k s) as [o s'] eqn:E; destruct o as [[]|?]
  end.

(** The database probe never throws and leaves the store alone; it answers
    [ok] exactly when the store is configured and the read resolves. *)
Lemma checkDatabase_resolves this clk s :
  exists d, checkDatabase this clk s = (Resolved d, s) /\
    (status d = "ok" <-> database_reachable this).
Proof.
  unfold checkDatabase, database_reachable.
  destruct (prismaRepository this) as [repo|].
  - unfold try_catch. destruct (instance_findMany repo 1) as [u|e] eqn:E.
    + eexists; split; [reflexivity|]. simpl. split; [|done].
      intros _. exists repo. split; [done|]. by exists u.
    + eexists; split; [reflexivity|]. simpl. split; [done|].
      intros (repo' & [= <-] & u & Hu). congruence.
  - eexists; split; [reflexivity|]. simpl. split; [done|].
    by intros (repo & ? & _).
Qed.

(** The cache probe never throws; it answers [ok] exactly when the cache
    is configured and its three calls resolve. *)
Lemma checkRedis_resolves this clk s :
  exists r s', checkRedis this clk s = (Resolved r, s') /\
    (status r = "ok" <-> cache_reachable this clk s).
Proof.
  unfold checkRedis, cache_reachable, probe_calls.
  destruct (cache this) as [c|].
  - unfold try_catch, bind.
    run_call; [run_call; [run_call|]|]; simpl;
      (do 2 eexists; split; [reflexivity|]; simpl; split); try done.
    + intros _. exists c. split; [done|]. eauto 10.
    + intros (c' & [= <-] & v & s' & s3 & s4 & H1 & H2 & H3). congruence.
    + intros (c' & [= <-] & v & s' & s3 & s4 & H1 & H2 & H3). congruence.
    + intros (c' & [= <-] & v & s' & s3 & s4 & H1 & H2 & H3). congruence.
  - do 2 eexists; split; [reflexivity|]. simpl. split; [done|].
    by intros (c & ? & _).
Qed.

(** The registry probe never throws and leaves the store alone. *)
Lemma checkInstances_resolves this s :
  exists i, checkInstances this s = (Resolved i, s).
Proof.
  unfold checkInstances. destruct (waMonitor this) as [m|]; [|by eexists].
  unfold try_catch. destruct (waInstances m); by eexists.
Qed.

(** C3, as amended. The cache probe writes the key [health:check:<ts>]
    with the value [ok] and an expiry of ten seconds, reads it back and
    deletes it. It reports [ok] exactly when the three calls resolve,
    whatever value the read returned, and [error] with the message thrown
    exactly when one of them throws; it never throws itself. *)
Theorem cache_probe_reports_throws_only db (c : CacheService S) mon clk s :
  let this := {| prismaRepository := db; cache := Some c; waMonitor := mon |} in
  exists r s', checkRedis this clk s = (Resolved r, s') /\
    (status r = "ok" \/ status r = "error") /\
    (status r = "ok" <-> exists v, probe_calls c clk s v s') /\
    (status r = "error" <->
       (exists e, cache_set c (at_set clk) (testKey clk) "ok" 10 s = (Thrown e, s')
                  /\ message r = Some e) \/
       (exists s1 e, cache_set c (at_set clk) (testKey clk) "ok" 10 s = (Resolved tt, s1)
                  /\ cache_get c (at_get clk) (testKey clk) s1 = (Thrown e, s')
                  /\ message r = Some e) \/
       (exists s1 v s2 e, cache_set c (at_set clk) (testKey clk) "ok" 10 s = (Resolved tt, s1)
                  /\ cache_get c (at_get clk) (testKey clk) s1 = (Resolved v, s2)
                  /\ cache_delete c (at_delete clk) (testKey clk) s2 = (Thrown e, s')
                  /\ message r = Some e)).
Proof.
  intros this. unfold checkRedis, probe_calls. simpl.
  unfold try_catch, bind.
  run_call; [run_call; [run_call|]|]; simpl;
    (do 2 eexists; split; [reflexivity|]; simpl).
  - split; [by left|]. split; split; try done.
    + intros _. eauto 10.
    + intros [(? & ? & _)|[(? & ? & ? & ? & _)|(? & ? & ? & ? & ? & ? & ? & _)]];
        congruence.
  - split; [by right|]. split; split; try done.
    + intros (? & ? & ? & ? & ? & ?). congruence.
    + intros _. right; right. eauto 10.
  - split; [by right|]. split; split; try done.
    + intros (? & ? & ? & ? & ? & ?). congruence.
    + intros _. right; left. eauto 10.
  - split; [by right|]. split; split; try done.
    + intros (? & ? & ? & ? & ? & ?). congruence.
    + intros _. left. eauto.
Qed.

(** C4. Readiness answers 503 with [ready:false] if and only if the
    database probe or the cache probe fails, that is, reports a status
    other than [ok]; it answers 200 with [ready:true] exactly when both
    stores are reachable. A probe fails when its store is not configured
    or one of its calls throws. *)
Theorem readiness_fails_iff_a_probe_fails this clk s :
  exists d r s' code body,
    checkDatabase this clk s = (Resolved d, s) /\
    checkRedis this clk s = (Resolved r, s') /\
    readiness this clk s = (Resolved (code, body), s') /\
    ((code = 503 /\ ready body = false) <-> (status d <> "ok" \/ status r <> "ok")) /\
    ((code = 200 /\ ready body = true) <->
       (database_reachable this /\ cache_reachable this clk s)) /\
    (code = 503 \/ code = 200) /\
    (code = 503 -> ready_checks body = Some (d, r)).
Proof.
  destruct (checkDatabase_resolves this clk s) as (d & Hd & Hdb).
  destruct (checkRedis_resolves this clk s) as (r & s' & Hr & Hca).
  unfold readiness, try_catch, bind, settle. rewrite Hd, Hr.
  destruct (String.eqb_spec (status d) "ok") as [Ed|Ed];
    destruct (String.eqb_spec (status r) "ok") as [Er|Er]; simpl;
    exists d, r, s'; do 2 eexists;
    (split; [reflexivity|]); (split; [reflexivity|]); (split; [first [assumption|reflexivity]|]);
    simpl; intuition congruence.
Qed.

(** C5. The detailed check answers 503 with the status [unhealthy] if and
    only if the database probe or the cache probe fails; otherwise it
    answers 200 with [healthy]. The entry of the connection registry is
    reported as it is, and no status of it, [error] included, changes the
    aggregate. *)
Theorem aggregate_unhealthy_iff_mandatory_probe_fails this proc clk s :
  exists d r i s' code body,
    checkDatabase this clk s = (Resolved d, s) /\
    checkRedis this clk s = (Resolved r, s') /\
    checkInstances this s' = (Resolved i, s') /\
    check this proc clk s = (Resolved (code, body), s') /\
    report_checks body = Some (d, r, i) /\
    ((code = 503 /\ report_status body = "unhealthy") <->
       (status d <> "ok" \/ status r <> "ok")) /\
    ((code = 200 /\ report_status body = "healthy") <->
       (database_reachable this /\ cache_reachable this clk s)) /\
    (status d = "ok" -> status r = "ok" -> status i <> "ok" ->
       code = 200 /\ report_status body = "healthy").
Proof.
  destruct (checkDatabase_resolves this clk s) as (d & Hd & Hdb).
  destruct (checkRedis_resolves this clk s) as (r & s' & Hr & Hca).
  destruct (checkInstances_resolves this s') as (i & Hi).
  unfold check, try_catch, bind, settle. rewrite Hd, Hr, Hi.
  destruct (String.eqb_spec (status d) "ok") as [Ed|Ed];
    destruct (String.eqb_spec (status r) "ok") as [Er|Er]; simpl;
    exists d, r, i, s'; do 2 eexists;
    (split; [reflexivity|]); (split; [reflexivity|]); (split; [first [assumption|reflexivity]|]);
    (split; [reflexivity|]); (split; [reflexivity|]);
    simpl; intuition congruence.
Qed.

(** The registry probe does report [error] when reading the registry
    throws, so the last part of C5 is not vacuous. *)
Lemma checkInstances_error db c e s :
  let this := {| prismaRepository := db; cache := c;
                 waMonitor := Some {| waInstances := Thrown e |} |} in
  exists i, checkInstances (S := S) this s = (Resolved i, s) /\ status i = "error".
Proof. by eexists. Qed.

End HealthFacts.

(** C3, as stated, fails: on a cache that accepts every call and keeps
    nothing the read returns [undefined], not [ok], and the probe still
    reports [ok] rather than [error]. *)
Lemma cache_probe_ignores_value_read :
  cache_get NullCache (Health.at_get Examples.still)
            (Health.testKey Examples.still) tt = (Resolved None, tt) /\
  exists r, Health.checkRedis Examples.forgetful Examples.still tt = (Resolved r, tt) /\
    Health.status r = "ok" /\ Health.status r <> "error".
Proof. split; [reflexivity|]. eexists. by repeat split. Qed.

(** Liveness probes nothing: it answers 200 with [alive:true] whatever the
    collaborators are, and leaves the store alone. *)
Lemma liveness_always_alive {S : Type} (this : Health.CustomHealthController S) clk s :
  Health.liveness (S := S) clk s
  = (Resolved (200, {| Health.alive := true;
                       Health.alive_timestamp := Health.timestamp clk |}), s).
Proof. reflexivity. Qed.

(** * Properties of the rate limiter *)

(** ** The JSON text of a record reads back as the record *)

Section JsonFacts.

Lemma strip_prefix_app p s : strip_prefix p (p +:+ s) = Some s.
Proof. induction p as [|a p IH]; simpl; [done|]. by rewrite Ascii.eqb_refl. Qed.

Lemma span_num_app n r : numeric n -> ends_number r -> span_num (n +:+ r) = (n, r).
Proof.
  induction n as [|c n IH]; simpl.
  - intros _ Hr. destruct r as [|c r]; simpl in *; [done|]. by rewrite Hr.
  - intros [Hc Hn] Hr. by rewrite Hc, IH.
Qed.

Lemma numeric_uint d : numeric (NilEmpty.string_of_uint d).
Proof. induction d; simpl; auto. Qed.

Lemma numeric_String_of z : numeric (String_of z).
Proof.
  unfold String_of. destruct (Z.to_int z) as [d|d]; simpl.
  - destruct d; simpl; auto using numeric_uint.
  - split; [done|]. destruct d; simpl; auto using numeric_uint.
Qed.

Lemma int_of_String_of z : NilZero.int_of_string (String_of z) = Some (Z.to_int z).
Proof.
  unfold String_of. apply NilZero.isi; destruct z; simpl; try discriminate;
    intros [= H]; by apply DecimalPos.Unsigned.to_uint_nonnil in H.
Qed.

Lemma read_int_String_of z r : ends_number r -> read_int (String_of z +:+ r) = Some (z, r).
Proof.
  intros Hr. unfold read_int.
  rewrite span_num_app by auto using numeric_String_of.
  rewrite int_of_String_of, DecimalZ.of_to. by rewrite String.eqb_refl.
Qed.

Lemma String_of_nonempty z : String_of z <> EmptyString.
Proof.
  intros H. pose proof (int_of_String_of z) as E. by rewrite H in E.
Qed.

Lemma append_assoc (a b c : string) : (a +:+ b) +:+ c = a +:+ (b +:+ c).
Proof.
  induction a as [|x a IH]; [done|].
  change (String x ((a +:+ b) +:+ c) = String x (a +:+ (b +:+ c))). by f_equal.
Qed.

Lemma length_append (a b : string) :
  String.length (a +:+ b) = (String.length a + String.length b)%nat.
Proof.
  induction a as [|c a IH]; [done|].
  change (String c a +:+ b) with (String c (a +:+ b)). simpl. by rewrite IH.
Qed.

Lemma append_nil_r (a : string) : a +:+ EmptyString = a.
Proof.
  induction a as [|c a IH]; [done|].
  change (String c (a +:+ EmptyString) = String c a). by rewrite IH.
Qed.

(** Two ways to cut one text: the shorter head is a head of the longer. *)
Lemma append_split (b1 : string) : forall t1 b2 t2,
  b1 +:+ t1 = b2 +:+ t2 -> (String.length b1 <= String.length b2)%nat ->
  exists x, b2 = b1 +:+ x /\ t1 = x +:+ t2.
Proof.
  induction b1 as [|c b1 IH]; intros t1 b2 t2 E Hl.
  - by exists b2.
  - destruct b2 as [|d b2]; [simpl in Hl; lia|].
    change (String c (b1 +:+ t1) = String d (b2 +:+ t2)) in E.
    injection E as -> E. simpl in Hl.
    destruct (IH t1 b2 t2 E ltac:(lia)) as (x & -> & ->). by exists x.
Qed.

Lemma read_member_member name v r :
  ends_number r -> read_member name (member name v +:+ r) = Some (v, r).
Proof.
  intros Hr. unfold read_member, member.
  replace ((dquote +:+ name +:+ dquote +:+ ":" +:+ String_of v) +:+ r)
    with ((dquote +:+ name +:+ dquote +:+ ":") +:+ (String_of v +:+ r))
    by (by rewrite !append_assoc).
  rewrite strip_prefix_app. simpl. by apply read_int_String_of.
Qed.

(** The text written by [JSON.stringify] parses back to the record. *)
Lemma JSON_parse_stringify d : JSON_parse (JSON_stringify d) = Some d.
Proof.
  destruct d as [c r [b|]]; unfold JSON_parse, JSON_stringify;
    cbn [count resetAt blockedUntil].
  - rewrite strip_prefix_app. cbn [mbind option_bind].
    rewrite read_member_member by done. cbn [mbind option_bind].
    rewrite strip_prefix_app. cbn [mbind option_bind].
    rewrite read_member_member by done. cbn [mbind option_bind].
    change (String.eqb (("," +:+ member "blockedUntil" b) +:+ "}") "}") with false.
    cbn match. rewrite append_assoc, strip_prefix_app. cbn [mbind option_bind].
    rewrite read_member_member by done. done.
  - rewrite strip_prefix_app. cbn [mbind option_bind].
    rewrite read_member_member by done. cbn [mbind option_bind].
    rewrite strip_prefix_app. cbn [mbind option_bind].
    rewrite read_member_member by done. done.
Qed.

Lemma JSON_stringify_truthy d : truthy (Some (JSON_stringify d)) = true.
Proof. done. Qed.

Lemma strip_prefix_inv p : forall s s', strip_prefix p s = Some s' -> s = p +:+ s'.
Proof.
  induction p as [|a p IH]; intros s s'; simpl.
  - by intros [= ->].
  - destruct s as [|b s]; [done|].
    destruct (Ascii.eqb_spec a b) as [->|]; [|done].
    intros H. by rewrite (IH _ _ H).
Qed.

Lemma span_num_inv s : forall n r, span_num s = (n, r) -> s = n +:+ r.
Proof.
  induction s as [|c s IH]; intros n r; simpl.
  - by intros [= <- <-].
  - destruct (is_num_char c).
    + destruct (span_num s) as [n' r']. intros [= <- <-]. by rewrite (IH n' r' eq_refl).
    + by intros [= <- <-].
Qed.

Lemma read_int_inv s z r : read_int s = Some (z, r) -> s = String_of z +:+ r.
Proof.
  unfold read_int. destruct (span_num s) as [n r'] eqn:Es.
  apply span_num_inv in Es. destruct (NilZero.int_of_string n) as [i|]; [|done].
  destruct (String.eqb_spec (String_of (Z.of_int i)) n) as [E|]; [|done].
  intros [= <- <-]. by rewrite E.
Qed.

Lemma read_member_inv name s z r :
  read_member name s = Some (z, r) -> s = member name z +:+ r.
Proof.
  unfold read_member, member.
  destruct (strip_prefix _ s) as [s'|] eqn:Es; [|done]. cbn [mbind option_bind].
  intros H%read_int_inv. apply strip_prefix_inv in Es. subst.
  by rewrite !append_assoc.
Qed.

(** The only texts that parse are those [JSON.stringify] writes for a
    record. *)
Lemma JSON_parse_own_form text data :
  JSON_parse text = Some data -> text = JSON_stringify data.
Proof.
  unfold JSON_parse, JSON_stringify.
  destruct (strip_prefix "{" text) as [s1|] eqn:E1; [|done]. cbn [mbind option_bind].
  destruct (read_member "count" s1) as [[c s2]|] eqn:E2; [|done]. cbn [mbind option_bind].
  destruct (strip_prefix "," s2) as [s3|] eqn:E3; [|done]. cbn [mbind option_bind].
  destruct (read_member "resetAt" s3) as [[r s4]|] eqn:E4; [|done]. cbn [mbind option_bind].
  apply strip_prefix_inv in E1, E3. apply read_member_inv in E2, E4.
  destruct (String.eqb_spec s4 "}") as [->|].
  - intros [= <-]. subst. cbn [count resetAt blockedUntil]. reflexivity.
  - destruct (strip_prefix "," s4) as [s5|] eqn:E5; [|done]. cbn [mbind option_bind].
    destruct (read_member "blockedUntil" s5) as [[b s6]|] eqn:E6; [|done].
    cbn [mbind option_bind].
    apply strip_prefix_inv in E5. apply read_member_inv in E6.
    destruct (String.eqb_spec s6 "}") as [->|]; [|done].
    intros [= <-]. subst. cbn [count resetAt blockedUntil].
    rewrite ?append_assoc. reflexivity.
Qed.

End JsonFacts.

(** ** The identity of a request *)

Section IdentityFacts.

Lemma bearer_match_nonempty a t : bearer_match a = Some t -> t <> EmptyString.
Proof.
  unfold bearer_match. destruct (strip_prefix_i "Bearer" a) as [rest|]; [|done].
  cbn [mbind option_bind]. destruct (span_space rest) as [blanks token].
  destruct blanks as [|b [|b' blanks]], token as [|c token]; try done.
  - destruct (no_line_terminator _); by intros [= <-].
  - destruct (last_char _) as [c|]; [|done]. cbn [mbind option_bind].
    destruct (is_line_terminator c); by intros [= <-].
  - destruct (no_line_terminator _); by intros [= <-].
Qed.

Lemma truthy_non_empty o : truthy o = true <-> exists k, non_empty o = Some k.
Proof.
  destruct o as [[|c k]|]; simpl; split; try done; try by intros [? ?].
  by eexists.
Qed.

Lemma non_empty_falsy o : truthy o = false <-> non_empty o = None.
Proof. by destruct o as [[|c k]|]. Qed.

Lemma or_null_non_empty o : or_null o = non_empty o.
Proof. by destruct o as [[|c k]|]. Qed.

(** [extractApiKey] answers the first candidate that is there. *)
Lemma extractApiKey_first_match req :
  extractApiKey req = first_match (candidates req).
Proof.
  unfold extractApiKey, candidates.
  destruct (headers req !! "apikey") as [[|c k]|] eqn:Eh; cbn [truthy non_empty first_match].
  - (* the header is empty *)
    destruct (headers req !! "authorization") as [a|] eqn:Ea; cbn [mbind option_bind].
    + destruct (bearer_match a) as [t|] eqn:Et.
      * pose proof (bearer_match_nonempty _ _ Et) as Ht.
        destruct a as [|x a]; [done|]. destruct t as [|y t]; [done|]. done.
      * destruct a as [|x a]; simpl; by destruct (query req !! "apikey") as [[|]|].
    + simpl. by destruct (query req !! "apikey") as [[|]|].
  - (* the header holds a key *)
    by destruct (headers req !! "authorization") as [[|]|].
  - (* no header *)
    destruct (headers req !! "authorization") as [a|] eqn:Ea; cbn [mbind option_bind].
    + destruct (bearer_match a) as [t|] eqn:Et.
      * pose proof (bearer_match_nonempty _ _ Et) as Ht.
        destruct a as [|x a]; [done|]. destruct t as [|y t]; [done|]. done.
      * destruct a as [|x a]; simpl; by destruct (query req !! "apikey") as [[|]|].
    + simpl. by destruct (query req !! "apikey") as [[|]|].
Qed.

(** *** The words of the regular expression *)

Lemma nat_of_ascii_inj x y : nat_of_ascii x = nat_of_ascii y -> x = y.
Proof.
  intros H. rewrite <- (ascii_nat_embedding x), <- (ascii_nat_embedding y).
  by rewrite H.
Qed.

Lemma nat_of_upper c :
  nat_of_ascii (upper c)
  = (if (97 <=? nat_of_ascii c) && (nat_of_ascii c <=? 122)
     then nat_of_ascii c - 32 else nat_of_ascii c)%nat.
Proof.
  unfold upper. destruct (_ && _); [|done].
  apply nat_ascii_embedding. pose proof (nat_ascii_bounded c). lia.
Qed.

Lemma upper_same_letter a b : Ascii.eqb (upper a) (upper b) = true <-> same_letter a b.
Proof.
  rewrite Ascii.eqb_eq. unfold same_letter. split.
  - intros H. apply (f_equal nat_of_ascii) in H. rewrite !nat_of_upper in H.
    destruct (decide (nat_of_ascii a = nat_of_ascii b)) as [E|E];
      [left; by apply nat_of_ascii_inj|right].
    destruct (Nat.leb_spec 97 (nat_of_ascii a)), (Nat.leb_spec (nat_of_ascii a) 122),
             (Nat.leb_spec 97 (nat_of_ascii b)), (Nat.leb_spec (nat_of_ascii b) 122);
      simpl in H; lia.
  - intros [->|[[Ha Hb]|[Hb Ha]]]; [done|..]; apply nat_of_ascii_inj;
      rewrite !nat_of_upper;
      destruct (Nat.leb_spec 97 (nat_of_ascii a)), (Nat.leb_spec (nat_of_ascii a) 122),
               (Nat.leb_spec 97 (nat_of_ascii b)), (Nat.leb_spec (nat_of_ascii b) 122);
      simpl; lia.
Qed.

Lemma strip_prefix_i_any_case p : forall a rest,
  strip_prefix_i p a = Some rest <->
  exists scheme, a = scheme +:+ rest /\ any_case p scheme.
Proof.
  induction p as [|c p IH]; intros a rest; simpl.
  - split.
    + intros [= ->]. by exists EmptyString.
    + intros ([|d scheme] & -> & H); [done|destruct H].
  - destruct a as [|d a].
    + split; [done|]. intros ([|b scheme] & E & H); [destruct H|discriminate].
    + destruct (Ascii.eqb (upper c) (upper d)) eqn:E.
      * apply upper_same_letter in E. rewrite IH. split.
        -- intros (scheme & -> & H). by exists (String d scheme).
        -- intros ([|b scheme] & Ea & H); [destruct H|].
           injection Ea as <- ->. destruct H as [_ H]. by exists scheme.
      * split; [done|]. intros ([|b scheme] & Ea & H); [destruct H|].
        injection Ea as <- ->. destruct H as [H _].
        apply upper_same_letter in H. congruence.
Qed.

Lemma any_case_length p : forall s, any_case p s -> String.length s = String.length p.
Proof.
  induction p as [|c p IH]; intros [|d s]; simpl; try done.
  intros [_ H]. by rewrite (IH s H).
Qed.

Lemma is_space_blank c : is_space c = true <-> blank c.
Proof.
  unfold is_space, blank. cbv zeta.
  rewrite !orb_true_iff, andb_true_iff, !Nat.leb_le, !Nat.eqb_eq. cbn [In]. lia.
Qed.

Lemma is_line_terminator_line_break c : is_line_terminator c = true <-> line_break c.
Proof.
  unfold is_line_terminator, line_break. cbv zeta.
  rewrite !orb_true_iff, !Nat.eqb_eq. cbn [In]. lia.
Qed.

Lemma all_space_every s : all_space s = true <-> every blank s.
Proof.
  induction s as [|c s IH]; simpl; [done|].
  by rewrite andb_true_iff, is_space_blank, IH.
Qed.

Lemma no_line_terminator_every s :
  no_line_terminator s = true <-> every (fun c => ~ line_break c) s.
Proof.
  induction s as [|c s IH]; simpl; [done|].
  rewrite andb_true_iff, negb_true_iff, IH, <- is_line_terminator_line_break.
  destruct (is_line_terminator c); intuition congruence.
Qed.

Lemma every_append P a b : every P (a +:+ b) <-> every P a /\ every P b.
Proof.
  induction a as [|c a IH]; [simpl; tauto|].
  change (String c a +:+ b) with (String c (a +:+ b)). simpl. rewrite IH. tauto.
Qed.

Lemma span_space_spec rest : forall bl tok,
  span_space rest = (bl, tok) ->
  rest = bl +:+ tok /\ every blank bl /\ leading_space tok = false.
Proof.
  induction rest as [|c rest IH]; simpl; intros bl tok.
  - by intros [= <- <-].
  - destruct (is_space c) eqn:Ec.
    + destruct (span_space rest) as [w r]. intros [= <- <-].
      destruct (IH w r eq_refl) as (-> & Hw & Hr).
      split; [done|]. split; [|done]. split; [by apply is_space_blank|done].
    + intros [= <- <-]. simpl. by rewrite Ec.
Qed.

Lemma last_char_spec s : forall c,
  last_char s = Some c -> exists w, s = w +:+ String c EmptyString.
Proof.
  induction s as [|d s IH]; intros c; [done|]. simpl.
  destruct s as [|e s].
  - intros [= <-]. by exists EmptyString.
  - intros H. destruct (IH c H) as (w & ->). by exists (String d w).
Qed.

Lemma last_char_append w c : last_char (w +:+ String c EmptyString) = Some c.
Proof.
  induction w as [|d w IH]; [done|].
  change (String d w +:+ String c EmptyString) with (String d (w +:+ String c EmptyString)).
  simpl. rewrite IH. by destruct w.
Qed.

(** All readings of one header agree on what follows the scheme. *)
Lemma bearer_split_rest scheme rest scheme' blanks' token' :
  any_case "Bearer" scheme ->
  bearer_split (scheme +:+ rest) scheme' blanks' token' ->
  rest = blanks' +:+ token' /\ every blank blanks' /\ blanks' <> EmptyString /\
  token' <> EmptyString /\ every (fun c => ~ line_break c) token'.
Proof.
  intros Hs (E & Hs' & Hne & Hb & Hte & Ht).
  apply any_case_length in Hs, Hs'.
  destruct (append_split scheme rest scheme' (blanks' +:+ token') E ltac:(lia))
    as (x & Ex & ->).
  assert (x = EmptyString) as ->.
  { apply (f_equal String.length) in Ex. rewrite length_append in Ex.
    destruct x; [done|simpl in Ex; lia]. }
  done.
Qed.

(** [bearer_match] answers the token after the longest run of blanks. *)
Lemma bearer_match_token a t : bearer_match a = Some t <-> bearer_token a t.
Proof.
  split.
  - unfold bearer_match.
    destruct (strip_prefix_i "Bearer" a) as [rest|] eqn:Es; [|done].
    cbn [mbind option_bind].
    apply strip_prefix_i_any_case in Es as (scheme & -> & Hsch).
    destruct (span_space rest) as [bl tok] eqn:Esp.
    apply span_space_spec in Esp as (-> & Hbl & Hld).
    destruct tok as [|c tok].
    + (* nothing but blanks after the scheme *)
      destruct bl as [|b [|b' bl]]; try done.
      destruct (last_char _) as [c|] eqn:El; [|done]. cbn [mbind option_bind].
      destruct (is_line_terminator c) eqn:Ec; [done|]. intros [= <-].
      apply last_char_spec in El as (w & El). rewrite El in *.
      rewrite append_nil_r. apply every_append in Hbl as [Hw Hc].
      exists scheme, w. split.
      * split; [done|]. split; [done|].
        split; [by destruct w|]. split; [done|]. split; [done|].
        simpl. split; [|done]. rewrite <- is_line_terminator_line_break. congruence.
      * intros scheme' blanks' token' Hsp.
        apply (bearer_split_rest _ _ _ _ _ Hsch) in Hsp as (E & _ & _ & Hte & _).
        apply (f_equal String.length) in E. rewrite !length_append in E. simpl in E.
        destruct token'; [done|simpl in E; lia].
    + (* a token after the blanks *)
      intros H.
      assert (bl <> EmptyString /\ no_line_terminator (String c tok) = true /\
              t = String c tok) as (Hne & Hn & ->).
      { destruct bl as [|b [|b' bl]]; [done|..];
          destruct (no_line_terminator (String c tok)); try done;
          by injection H as <-. }
      clear H.
      exists scheme, bl. split.
      * split; [done|]. split; [done|]. split; [done|]. split; [done|].
        split; [done|]. by apply no_line_terminator_every.
      * intros scheme' blanks' token' Hsp.
        apply (bearer_split_rest _ _ _ _ _ Hsch) in Hsp as (E & Hb' & _ & _ & _).
        destruct (Nat.le_gt_cases (String.length blanks') (String.length bl)) as [|Hlt];
          [done|exfalso].
        destruct (append_split bl (String c tok) blanks' token' E ltac:(lia))
          as (x & -> & Ex).
        apply every_append in Hb' as [_ Hx].
        destruct x as [|d x]; [rewrite length_append in Hlt; simpl in Hlt; lia|].
        injection Ex as <- _. destruct Hx as [Hx _].
        apply is_space_blank in Hx. simpl in Hld. congruence.
  - intros (scheme & blanks & (-> & Hsch & Hne & Hb & Hte & Ht) & Hmax).
    unfold bearer_match.
    assert (strip_prefix_i "Bearer" (scheme +:+ blanks +:+ t) = Some (blanks +:+ t)) as ->
      by (apply strip_prefix_i_any_case; eauto).
    cbn [mbind option_bind].
    destruct (span_space (blanks +:+ t)) as [bl tok] eqn:Esp.
    apply span_space_spec in Esp as (E & Hbl & Hld).
    assert (exists x, bl = blanks +:+ x /\ t = x +:+ tok) as (x & -> & ->).
    { destruct (Nat.le_gt_cases (String.length blanks) (String.length bl)) as [Hle|Hlt].
      - apply (append_split _ _ _ _ E Hle).
      - exfalso. symmetry in E.
        destruct (append_split bl tok blanks t E ltac:(lia)) as (x & -> & Ex).
        apply every_append in Hb as [_ Hx].
        destruct x as [|d x]; [rewrite length_append in Hlt; simpl in Hlt; lia|].
        change (tok = String d (x +:+ t)) in Ex. subst tok.
        destruct Hx as [Hx _]. apply is_space_blank in Hx. simpl in Hld. congruence. }
    clear E. destruct x as [|d x].
    + (* the token starts with no blank *)
      rewrite append_nil_r. change (EmptyString +:+ tok) with tok in *.
      apply no_line_terminator_every in Ht.
      destruct blanks as [|b [|b' blanks]], tok as [|c tok]; try done; by rewrite Ht.
    + (* the token starts with a blank: it is that blank alone *)
      change (String d x +:+ tok) with (String d (x +:+ tok)) in *.
      assert (x +:+ tok = EmptyString) as Hnil.
      { destruct (x +:+ tok) as [|e y] eqn:Ey; [done|exfalso].
        apply every_append in Hbl as [_ [Hd _]]. destruct Ht as [_ Ht].
        specialize (Hmax scheme (blanks +:+ String d EmptyString) (String e y)).
        rewrite length_append in Hmax. simpl in Hmax.
        enough ((String.length blanks + 1 <= String.length blanks)%nat) by lia.
        apply Hmax. split; [by rewrite append_assoc|]. split; [done|].
        split; [by destruct blanks|]. split; [apply every_append; by split|].
        by split. }
      destruct x; [|done]. change (EmptyString +:+ tok) with tok in *. subst tok.
      destruct Ht as [Hd _].
      rewrite <- is_line_terminator_line_break in Hd.
      destruct blanks as [|b blanks]; [done|].
      change (String b blanks +:+ String d EmptyString)
        with (String b (blanks +:+ String d EmptyString)).
      pose proof (last_char_append (String b blanks) d) as Hl.
      change (String b blanks +:+ String d EmptyString)
        with (String b (blanks +:+ String d EmptyString)) in Hl.
      destruct (blanks +:+ String d EmptyString) as [|e y] eqn:Ey;
        [by destruct blanks|].
      rewrite Hl. cbn [mbind option_bind]. by destruct (is_line_terminator d).
Qed.

Lemma non_empty_given o k : non_empty o = Some k <-> given o k.
Proof.
  unfold given. destruct o as [[|c t]|]; simpl; split; try done.
  - by intros [[= <-] ?].
  - by intros [= <-].
  - by intros [[= <-] _].
  - by intros [? _].
Qed.

Lemma non_empty_absent o : non_empty o = None <-> absent o.
Proof.
  unfold absent. destruct o as [[|c t]|]; simpl; split; try done; auto.
  by intros [?|?].
Qed.

(** The identity the code extracts is the identity by ordered preference. *)
Lemma extractApiKey_identity req k : extractApiKey req = Some k <-> identity_of req k.
Proof.
  rewrite extractApiKey_first_match. unfold candidates. simpl. split.
  - destruct (non_empty (headers req !! "apikey")) as [h|] eqn:Eh.
    + intros [= <-]. apply by_header. by apply non_empty_given.
    + apply non_empty_absent in Eh.
      destruct (headers req !! "authorization") as [a|] eqn:Ea; simpl.
      * destruct (bearer_match a) as [t|] eqn:Et.
        -- intros [= <-]. apply by_bearer with a; [done..|]. by apply bearer_match_token.
        -- destruct (non_empty (query req !! "apikey")) as [q|] eqn:Eq; [|done].
           intros [= <-]. apply by_query; [done| |by apply non_empty_given].
           intros a' t Ha' Ht. rewrite Ea in Ha'. injection Ha' as <-.
           apply bearer_match_token in Ht. congruence.
      * destruct (non_empty (query req !! "apikey")) as [q|] eqn:Eq; [|done].
        intros [= <-]. apply by_query; [done| |by apply non_empty_given].
        intros a' t Ha'. congruence.
  - intros [Hh | a Hh Ha Ht | Hh Hno Hq].
    + apply non_empty_given in Hh. by rewrite Hh.
    + apply non_empty_absent in Hh. apply bearer_match_token in Ht.
      rewrite Hh, Ha. simpl. by rewrite Ht.
    + apply non_empty_absent in Hh. apply non_empty_given in Hq. rewrite Hh.
      destruct (headers req !! "authorization") as [a|] eqn:Ea; simpl; [|by rewrite Hq].
      destruct (bearer_match a) as [t|] eqn:Et; [|by rewrite Hq].
      apply bearer_match_token in Et. by destruct (Hno a t).
Qed.

End IdentityFacts.

(** ** The middleware over any store *)

Section MiddlewareFacts.
Context {S : Type} (cache : CacheService S) (config : RateLimitConfig Z).
Implicit Types (req : Request) (clk : RateLimit.Clock) (s : S).

(** [consume] is a read, the transition, and a write unless the caller
    is blocked. *)
Lemma consume_transition apiKey clk s :
  consume cache config apiKey clk s =
  match cache_get cache (RateLimit.at_get clk) (keyPrefix +:+ apiKey) s with
  | (Thrown e, s1) => (Thrown e, s1)
  | (Resolved dataStr, s1) =>
      match transition config (now clk) dataStr with
      | Thrown e => (Thrown e, s1)
      | Resolved (false, data) => (Resolved data, s1)
      | Resolved (true, data) =>
          match cache_set cache (RateLimit.at_set clk) (keyPrefix +:+ apiKey)
                          (JSON_stringify data) (ttl_of data (now clk)) s1 with
          | (Resolved _, s2) => (Resolved data, s2)
          | (Thrown e, s2) => (Thrown e, s2)
          end
      end
  end.
Proof.
  unfold consume, transition, save, bind, throw, ret.
  destruct (cache_get cache _ _ s) as [[dataStr|e] s1]; [|done].
  destruct (truthy dataStr).
  - destruct (JSON_parse _) as [data|]; [|done].
    destruct (blocked_at data (now clk)); [done|].
    destruct (resetAt data <=? now clk); by destruct (cache_set cache _ _ _ _ s1) as [[[]|] ?].
  - by destruct (cache_set cache _ _ _ _ s1) as [[[]|] ?].
Qed.

Lemma middleware_disabled req clk s :
  enabled config = false -> middleware cache config req clk s = (Resolved pass, s).
Proof. intros H. unfold middleware. by rewrite H. Qed.

Lemma middleware_no_key req clk s :
  extractApiKey req = None -> middleware cache config req clk s = (Resolved pass, s).
Proof.
  intros H. unfold middleware. destruct (enabled config); [|done].
  simpl. unfold try_catch. by rewrite H.
Qed.

(** The middleware never throws: it answers from what [consume] resolved
    to, or passes the request on, which it also does when the date of
    [resetAt] cannot be printed. *)
Lemma middleware_cases req clk s :
  middleware cache config req clk s =
  if enabled config then
    match extractApiKey req with
    | None => (Resolved pass, s)
    | Some apiKey =>
        match consume cache config apiKey clk s with
        | (Resolved result, s') =>
            (Resolved (if valid_date (resetAt result)
                       then reply config result clk else pass), s')
        | (Thrown _, s') => (Resolved pass, s')
        end
    end
  else (Resolved pass, s).
Proof.
  unfold middleware. destruct (enabled config); [|done]. simpl.
  unfold try_catch, bind. destruct (extractApiKey req) as [k|]; [|done].
  destruct (consume cache config k clk s) as [[result|e] s']; [|done].
  unfold toISOString. by destruct (valid_date (resetAt result)).
Qed.

Lemma middleware_consumed req apiKey clk s result s' :
  enabled config = true ->
  extractApiKey req = Some apiKey ->
  consume cache config apiKey clk s = (Resolved result, s') ->
  valid_date (resetAt result) = true ->
  middleware cache config req clk s = (Resolved (reply config result clk), s').
Proof. intros He Hk Hc Hv. by rewrite middleware_cases, He, Hk, Hc, Hv. Qed.

(** A record whose [resetAt] is no valid date makes [toISOString] throw
    inside the [try], so the request is passed on with no header set. *)
Lemma middleware_invalid_date req apiKey clk s result s' :
  enabled config = true ->
  extractApiKey req = Some apiKey ->
  consume cache config apiKey clk s = (Resolved result, s') ->
  valid_date (resetAt result) = false ->
  middleware cache config req clk s = (Resolved pass, s').
Proof. intros He Hk Hc Hv. by rewrite middleware_cases, He, Hk, Hc, Hv. Qed.

Lemma middleware_thrown req apiKey clk s e s' :
  extractApiKey req = Some apiKey ->
  consume cache config apiKey clk s = (Thrown e, s') ->
  exists s'', middleware cache config req clk s = (Resolved pass, s'').
Proof.
  intros Hk Hc. rewrite middleware_cases, Hk, Hc.
  destruct (enabled config); eauto.
Qed.

Lemma middleware_resolves req clk s :
  exists r s', middleware cache config req clk s = (Resolved r, s').
Proof.
  rewrite middleware_cases. destruct (enabled config); [|eauto].
  destruct (extractApiKey req) as [k|]; [|eauto].
  destruct (consume cache config k clk s) as [[result|e] s']; eauto.
Qed.

Lemma serve_cons req clk trace s r s' rs s'' :
  middleware cache config req clk s = (Resolved r, s') ->
  serve cache config trace s' = (Resolved rs, s'') ->
  serve cache config ((req, clk) :: trace) s = (Resolved (r :: rs), s'').
Proof. intros H1 H2. simpl. unfold bind. by rewrite H1, H2. Qed.

Lemma serve_resolves trace s :
  exists rs s', serve cache config trace s = (Resolved rs, s').
Proof.
  revert s. induction trace as [|[req clk] trace IH]; intros s; [by eexists _, _|].
  destruct (middleware_resolves req clk s) as (r & s' & Hr).
  destruct (IH s') as (rs & s'' & Hrs).
  exists (r :: rs), s''. by eapply serve_cons.
Qed.

Lemma serve_cons_inv req clk trace s out s'' :
  serve cache config ((req, clk) :: trace) s = (Resolved out, s'') ->
  exists r s' rs,
    middleware cache config req clk s = (Resolved r, s') /\
    serve cache config trace s' = (Resolved rs, s'') /\ out = r :: rs.
Proof.
  destruct (middleware_resolves req clk s) as (r & s' & Hr).
  destruct (serve_resolves trace s') as (rs & s3 & Hrs).
  rewrite (serve_cons _ _ _ _ _ _ _ _ Hr Hrs). intros [= <- <-]. eauto 10.
Qed.

(** The headers of a response tell how it came about. *)
Lemma reply_remaining result clk :
  header_num "X-RateLimit-Remaining" (reply config result clk)
  = Some (Z.max 0 (points config - count result)).
Proof. unfold reply, respond, header_num. by destruct (blocked_at result _). Qed.

Lemma reply_reset result clk :
  header_date "X-RateLimit-Reset" (reply config result clk) = Some (resetAt result).
Proof. unfold reply, respond, header_date. by destruct (blocked_at result _). Qed.

Lemma reply_disposition result clk :
  disposition (reply config result clk) =
  if blocked_at result (at_check clk)
  then Json 429 (tooManyRequests
         (ceil_div (default 0 (blockedUntil result) - at_retry clk) 1000))
  else Next.
Proof. unfold reply, respond. by destruct (blocked_at result _). Qed.

Lemma reply_headers result clk :
  sentHeaders (reply config result clk) !! "X-RateLimit-Limit" = Some (Num (points config)) /\
  sentHeaders (reply config result clk) !! "X-RateLimit-Remaining"
    = Some (Num (Z.max 0 (points config - count result))) /\
  sentHeaders (reply config result clk) !! "X-RateLimit-Reset"
    = Some (IsoDate (resetAt result)).
Proof. unfold reply, respond. by destruct (blocked_at result _). Qed.

(** [consume] throws exactly when an interaction with the store errors. *)
Lemma consume_throws_iff apiKey clk s :
  (exists e s', consume cache config apiKey clk s = (Thrown e, s')) <->
  store_error cache config apiKey clk s.
Proof.
  rewrite consume_transition. split.
  - intros (e & s' & H).
    destruct (cache_get cache _ _ s) as [[dataStr|e0] s1] eqn:Eg.
    + destruct (transition config (now clk) dataStr) as [[[|] data]|e1] eqn:Et.
      * destruct (cache_set cache _ _ _ _ s1) as [[[]|e2] s2] eqn:Es; [done|].
        by eapply set_throws.
      * done.
      * unfold transition in Et. destruct dataStr as [text|]; [|done].
        destruct (truthy (Some text)) eqn:Ht; [|done]. simpl in Et.
        destruct (JSON_parse text) as [data|] eqn:Ep.
        -- destruct (blocked_at data (now clk)); [done|].
           by destruct (resetAt data <=? now clk).
        -- eapply record_corrupt; [done| |done].
           intros ->. done.
    + by eapply get_throws.
  - intros [e s' Hg | text s' Hg Hne Hp | dataStr s1 data e s2 Hg Ht Hs]; rewrite Hg.
    + eauto.
    + unfold transition. destruct text as [|c text]; [done|]. simpl.
      rewrite Hp. eauto.
    + rewrite Ht, Hs. eauto.
Qed.

(** C2. Whenever an interaction with the shared store errors while a
    request is handled (the read throws, the text read does not parse, or
    the write throws), the middleware calls [next()]: the request is
    admitted and no 429 is sent. *)
Theorem store_error_admits req apiKey clk s :
  extractApiKey req = Some apiKey ->
  store_error cache config apiKey clk s ->
  exists r s', middleware cache config req clk s = (Resolved r, s') /\
    r = pass /\ disposition r = Next.
Proof.
  intros Hk Herr. apply consume_throws_iff in Herr as (e & s' & Hc).
  destruct (middleware_thrown _ _ _ _ _ _ Hk Hc) as (s'' & ->).
  by exists pass, s''.
Qed.

(** C6, as amended. Take a request to the enabled middleware, the quota
    being at most [2^53]. If it carries an identity, no interaction with
    the store errors, the text read is nothing or a record as the limiter
    writes it, and the date of the record's [resetAt] can be printed, the
    response, admitted or rejected, carries the three headers: the
    configured quota, the quota minus the count of the record floored at
    zero, and the end of the window. The request is passed on without any
    header when that date cannot be printed, when an interaction with the
    store errors, and when the request carries no identity. *)
Theorem identified_request_carries_headers req clk s :
  enabled config = true ->
  points config <= 2 ^ 53 ->
  (forall apiKey,
     extractApiKey req = Some apiKey ->
     reads_own_record cache apiKey clk s ->
     ~ store_error cache config apiKey clk s ->
     exists result s',
       consume cache config apiKey clk s = (Resolved result, s') /\
       (valid_date (resetAt result) = true ->
        exists r,
          middleware cache config req clk s = (Resolved r, s') /\
          sentHeaders r !! "X-RateLimit-Limit" = Some (Num (points config)) /\
          sentHeaders r !! "X-RateLimit-Remaining"
            = Some (Num (Z.max 0 (points config - count result))) /\
          sentHeaders r !! "X-RateLimit-Reset" = Some (IsoDate (resetAt result)) /\
          (disposition r = Next \/ exists body, disposition r = Json 429 body)) /\
       (valid_date (resetAt result) = false ->
        middleware cache config req clk s = (Resolved pass, s'))) /\
  (forall apiKey,
     extractApiKey req = Some apiKey ->
     store_error cache config apiKey clk s ->
     exists s', middleware cache config req clk s = (Resolved pass, s')) /\
  (extractApiKey req = None ->
   middleware cache config req clk s = (Resolved pass, s)) /\
  sentHeaders pass = ∅.
Proof.
  intros He _. split; [|split; [|split; [|done]]].
  - intros apiKey Hk _ Hok.
    destruct (consume cache config apiKey clk s) as [[result|e] s'] eqn:Hc.
    + exists result, s'. split; [done|]. split; intros Hv.
      * exists (reply config result clk).
        split; [by apply middleware_consumed with apiKey|].
        destruct (reply_headers result clk) as (H1 & H2 & H3).
        repeat (split; [done|]). rewrite reply_disposition.
        destruct (blocked_at result _); eauto.
      * by apply middleware_invalid_date with apiKey result.
    + exfalso. apply Hok, consume_throws_iff. eauto.
  - intros apiKey Hk Herr. apply consume_throws_iff in Herr as (e & s' & Hc).
    by apply middleware_thrown with apiKey e s'.
  - apply middleware_no_key.
Qed.

(** C8. The identity of a request is its identity by ordered preference:
    the credential header when it is there and not empty; failing that,
    the token of the authorization header when the header is the word
    [Bearer] in any case, one or more blanks and a token, the token being
    what follows the longest run of blanks; failing that, the credential
    parameter of the query string when it is there and not empty. A
    request to which none of the three gives an identity is passed on
    with no header set and the store as it was. *)
Theorem identity_by_preference_else_pass req clk s :
  (forall k, extractApiKey req = Some k <-> identity_of req k) /\
  ((forall k, ~ identity_of req k) ->
   extractApiKey req = None /\
   middleware cache config req clk s = (Resolved pass, s)).
Proof.
  split; [apply extractApiKey_identity|].
  intros Hno.
  assert (extractApiKey req = None) as Hk.
  { destruct (extractApiKey req) as [k|] eqn:Ek; [|done].
    apply extractApiKey_identity in Ek. by destruct (Hno k). }
  split; [done|]. by apply middleware_no_key.
Qed.

(** C9, as amended. When the credential header and the query parameter
    are each absent or empty and the authorization header holds no bearer
    token, the identity is [null] and the request is passed on like an
    unauthenticated one: no header is set and the store is as it was. *)
Theorem empty_credentials_pass req clk s :
  truthy (headers req !! "apikey") = false ->
  headers req !! "authorization" ≫= bearer_match = None ->
  truthy (query req !! "apikey") = false ->
  extractApiKey req = None /\
  middleware cache config req clk s = (Resolved pass, s) /\
  sentHeaders pass = ∅.
Proof.
  intros Hh Ha Hq.
  assert (extractApiKey req = None) as Hk.
  { rewrite extractApiKey_first_match. unfold candidates.
    apply non_empty_falsy in Hh, Hq. by rewrite Hh, Ha, Hq. }
  split; [done|]. split; [by apply middleware_no_key|done].
Qed.

End MiddlewareFacts.

(** While the store is down, every request is admitted. *)
Lemma store_down_admits config req clk :
  middleware DownCache config req clk tt = (Resolved pass, tt).
Proof.
  unfold middleware. destruct (enabled config); [|done]. simpl.
  unfold try_catch. by destruct (extractApiKey req).
Qed.

Lemma store_error_admits_witness :
  extractApiKey Examples.from_X = Some "X" /\
  store_error MemoryCache Examples.defaults "X" (Examples.at_ 0) Examples.corrupted /\
  exists r s', middleware MemoryCache Examples.defaults Examples.from_X (Examples.at_ 0)
                 Examples.corrupted = (Resolved r, s') /\
    r = pass /\ disposition r = Next.
Proof.
  assert (H : store_error MemoryCache Examples.defaults "X" (Examples.at_ 0) Examples.corrupted).
  { eapply record_corrupt with (text := "{count:"); [reflexivity|discriminate|reflexivity]. }
  split; [reflexivity|]. split; [exact H|].
  apply (store_error_admits MemoryCache Examples.defaults Examples.from_X "X");
    [reflexivity|exact H].
Defined.

(** C6, as stated, fails: the enabled middleware passes a request without
    credentials on, and sets none of the three headers. *)
Lemma anonymous_request_carries_no_header :
  enabled Examples.defaults = true /\
  exists r, middleware MemoryCache Examples.defaults Examples.anonymous (Examples.at_ 0) ∅
            = (Resolved r, ∅) /\
    sentHeaders r !! "X-RateLimit-Limit" = None /\
    sentHeaders r !! "X-RateLimit-Remaining" = None /\
    sentHeaders r !! "X-RateLimit-Reset" = None.
Proof. split; [done|]. exists pass. by repeat split. Qed.

(** C9, as stated, fails: with an empty credential header and a key in the
    query string the identity is that key, not [null]. *)
Lemma empty_header_falls_through_to_query :
  headers Examples.empty_header_query_key !! "apikey" = Some EmptyString /\
  extractApiKey Examples.empty_header_query_key = Some "k" /\
  ~ ((headers Examples.empty_header_query_key !! "apikey" = Some EmptyString \/
      query Examples.empty_header_query_key !! "apikey" = Some EmptyString) ->
     extractApiKey Examples.empty_header_query_key = None).
Proof.
  split; [reflexivity|]. split; [reflexivity|].
  intros H. discriminate H. by left.
Qed.

Lemma identity_by_preference_else_pass_witness :
  identity_of Examples.with_bearer "abc" /\
  extractApiKey Examples.with_bearer = Some "abc" /\
  (forall k, ~ identity_of Examples.anonymous k) /\
  middleware MemoryCache Examples.defaults Examples.anonymous (Examples.at_ 0) ∅
    = (Resolved pass, ∅).
Proof.
  assert (identity_of Examples.with_bearer "abc") as Hb.
  { apply by_bearer with "bearer  abc"; [by left|reflexivity|].
    by apply bearer_match_token. }
  assert (forall k, ~ identity_of Examples.anonymous k) as Ha.
  { intros k H. apply extractApiKey_identity in H. discriminate. }
  split; [exact Hb|]. split; [|split; [exact Ha|]].
  - apply (identity_by_preference_else_pass MemoryCache Examples.defaults
             Examples.with_bearer (Examples.at_ 0) ∅). exact Hb.
  - apply (identity_by_preference_else_pass MemoryCache Examples.defaults
             Examples.anonymous (Examples.at_ 0) ∅). exact Ha.
Defined.

Lemma empty_credentials_pass_witness :
  extractApiKey Examples.empty_header = None /\
  middleware MemoryCache Examples.defaults Examples.empty_header (Examples.at_ 0) ∅
    = (Resolved pass, ∅) /\
  sentHeaders pass = ∅.
Proof.
  apply (empty_credentials_pass MemoryCache Examples.defaults Examples.empty_header
           (Examples.at_ 0) ∅); reflexivity.
Defined.

Lemma identified_request_carries_headers_witness :
  enabled Examples.two_per_minute = true /\
  points Examples.two_per_minute <= 2 ^ 53 /\
  (exists r s',
     middleware MemoryCache Examples.two_per_minute Examples.from_X (Examples.at_ 0) ∅
       = (Resolved r, s') /\
     sentHeaders r !! "X-RateLimit-Limit" = Some (Num 2) /\
     sentHeaders r !! "X-RateLimit-Remaining" = Some (Num 1) /\
     sentHeaders r !! "X-RateLimit-Reset" = Some (IsoDate 60000) /\
     (disposition r = Next \/ exists body, disposition r = Json 429 body)) /\
  (exists r s',
     middleware MemoryCache Examples.two_per_minute Examples.from_X (Examples.at_ 30)
       Examples.blocked_store = (Resolved r, s') /\
     sentHeaders r !! "X-RateLimit-Limit" = Some (Num 2) /\
     sentHeaders r !! "X-RateLimit-Remaining" = Some (Num 0) /\
     sentHeaders r !! "X-RateLimit-Reset" = Some (IsoDate 60000) /\
     (disposition r = Next \/ exists body, disposition r = Json 429 body)).
Proof.
  assert (points Examples.two_per_minute <= 2 ^ 53) as Hp by (simpl; lia).
  split; [reflexivity|]. split; [exact Hp|]. split.
  - (* a first request, admitted *)
    destruct (identified_request_carries_headers MemoryCache Examples.two_per_minute
                Examples.from_X (Examples.at_ 0) ∅ eq_refl Hp) as (H & _).
    destruct (H "X" eq_refl) as (result & s' & Hc & Hv & _).
    + intros text s1 Hg. discriminate Hg.
    + intros [e s1 Hg | text s1 Hg _ _ | dataStr s1 data e s2 _ _ Hs]; discriminate.
    + assert (consume MemoryCache Examples.two_per_minute "X" (Examples.at_ 0) ∅
              = (Resolved {| count := 1; resetAt := 60000; blockedUntil := None |},
                 written (Examples.at_ 0) "X"
                   {| count := 1; resetAt := 60000; blockedUntil := None |} ∅)) as Hc'
        by reflexivity.
      rewrite Hc' in Hc. injection Hc as <- <-.
      destruct (Hv eq_refl) as (r & Hm & H1 & H2 & H3 & Hd).
      exists r. eexists. split; [exact Hm|]. split; [exact H1|].
      split; [exact H2|]. split; [exact H3|exact Hd].
  - (* a request of a blocked caller, rejected *)
    assert (cache_get MemoryCache (RateLimit.at_get (Examples.at_ 30))
              (keyPrefix +:+ "X") Examples.blocked_store
            = (Resolved (Some (JSON_stringify Examples.over_quota)), Examples.blocked_store))
      as Hg' by reflexivity.
    destruct (identified_request_carries_headers MemoryCache Examples.two_per_minute
                Examples.from_X (Examples.at_ 30) Examples.blocked_store eq_refl Hp)
      as (H & _).
    destruct (H "X" eq_refl) as (result & s' & Hc & Hv & _).
    + intros text s1 Hg. rewrite Hg' in Hg. injection Hg as <- _.
      right. exists Examples.over_quota. split; [done|simpl; lia].
    + intros [e s1 Hg | text s1 Hg _ Hparse | dataStr s1 data e s2 _ _ Hs];
        [rewrite Hg' in Hg; discriminate| |discriminate].
      rewrite Hg' in Hg. injection Hg as <- _.
      by rewrite JSON_parse_stringify in Hparse.
    + assert (consume MemoryCache Examples.two_per_minute "X" (Examples.at_ 30)
                Examples.blocked_store
              = (Resolved Examples.over_quota, Examples.blocked_store)) as Hc'
        by reflexivity.
      rewrite Hc' in Hc. injection Hc as <- <-.
      destruct (Hv eq_refl) as (r & Hm & H1 & H2 & H3 & Hd).
      exists r. eexists. split; [exact Hm|]. split; [exact H1|].
      split; [exact H2|]. split; [exact H3|exact Hd].
Defined.

(** ** The middleware over the store with expiry *)

Section MemoryFacts.
Context (config : RateLimitConfig Z).
Implicit Types (req : Request) (clk : RateLimit.Clock) (s : gmap string (string * Z)).

Lemma ceil_div_covers x : x <= ceil_div x 1000 * 1000.
Proof.
  unfold ceil_div.
  pose proof (Z.div_mod (- x) 1000 ltac:(lia)).
  pose proof (Z.mod_pos_bound (- x) 1000 ltac:(lia)). lia.
Qed.

(** The expiry of a record reaches the end of its window. *)
Lemma ttl_covers_window data t : resetAt data - t <= ttl_of data t * 1000.
Proof.
  unfold ttl_of. pose proof (ceil_div_covers (resetAt data - t)). lia.
Qed.

Lemma key_inj a b : keyPrefix +:+ a = keyPrefix +:+ b -> a = b.
Proof. apply String.app_inj. Qed.

Lemma consume_memory apiKey clk s :
  consume MemoryCache config apiKey clk s =
  match transition config (now clk) (live s (RateLimit.at_get clk) (keyPrefix +:+ apiKey)) with
  | Thrown e => (Thrown e, s)
  | Resolved (false, data) => (Resolved data, s)
  | Resolved (true, data) => (Resolved data, written clk apiKey data s)
  end.
Proof.
  rewrite consume_transition. simpl.
  by destruct (transition _ _ _) as [[[|] data]|e].
Qed.

Lemma holds_written clk apiKey data s :
  now clk <= RateLimit.at_set clk -> holds (written clk apiKey data s) apiKey data.
Proof.
  intros Hc. unfold holds, written. do 2 eexists.
  split; [apply lookup_insert_eq|]. split; [apply JSON_parse_stringify|].
  pose proof (ttl_covers_window data (now clk)). lia.
Qed.

Lemma holds_written_other clk k k' data data' s :
  k' <> k -> holds s k data -> holds (written clk k' data' s) k data.
Proof.
  intros Hne (text & e & Hs & Hp & He). exists text, e.
  split; [|done]. unfold written. rewrite lookup_insert_ne; [done|].
  intros H. by apply key_inj in H.
Qed.

Lemma live_holds s k data t :
  holds s k data -> t < resetAt data ->
  exists text, live s t (keyPrefix +:+ k) = Some text /\ JSON_parse text = Some data
               /\ truthy (Some text) = true.
Proof.
  intros (text & e & Hs & Hp & He) Ht. exists text. unfold live. rewrite Hs.
  destruct (Z.ltb_spec t e); [|lia]. split; [done|]. split; [done|].
  by destruct text.
Qed.

Lemma transition_in_window text data t :
  JSON_parse text = Some data -> truthy (Some text) = true -> t < resetAt data ->
  transition config t (Some text) =
  Resolved (if blocked_at data t then (false, data) else (true, increment config t data)).
Proof.
  intros Hp Ht Hw. unfold transition. rewrite Ht. simpl. rewrite Hp.
  destruct (blocked_at data t); [done|].
  destruct (Z.leb_spec (resetAt data) t); [lia|done].
Qed.

Lemma transition_early_return t o data :
  transition config t o = Resolved (false, data) ->
  exists text, o = Some text /\ JSON_parse text = Some data.
Proof.
  unfold transition. destruct o as [text|]; [|discriminate].
  destruct (truthy (Some text)); [|discriminate]. simpl.
  destruct (JSON_parse text) as [d|] eqn:Hp; [|discriminate].
  destruct (blocked_at d t); [intros [= <-]; by exists text|].
  destruct (resetAt d <=? t); discriminate.
Qed.

Lemma live_Some s t key text :
  live s t key = Some text -> exists e, s !! key = Some (text, e).
Proof.
  unfold live. destruct (s !! key) as [[v e]|]; [|done].
  destruct (t <? e); [|done]. intros [= <-]. eauto.
Qed.

Lemma counted_resetAt t data : resetAt (counted config t data) = resetAt data.
Proof. unfold counted. by destruct (blocked_at data t). Qed.

Lemma counted_count t data : count data <= count (counted config t data).
Proof. unfold counted. destruct (blocked_at data t); simpl; lia. Qed.

(** A request of the identity inside the window of its record. *)
Lemma consume_in_window k clk s data :
  holds s k data -> before (resetAt data) clk ->
  exists s', consume MemoryCache config k clk s
               = (Resolved (counted config (now clk) data), s') /\
    holds s' k (counted config (now clk) data).
Proof.
  intros Hh (Hn & Hg & Hs).
  destruct (live_holds _ _ _ _ Hh Hg) as (text & Hl & Hp & Ht).
  rewrite consume_memory, Hl, (transition_in_window _ _ _ Hp Ht Hn).
  unfold counted. destruct (blocked_at data (now clk)).
  - by exists s.
  - eexists. split; [done|]. by apply holds_written.
Qed.

Lemma step_same k req clk s data :
  enabled config = true -> extractApiKey req = Some k ->
  holds s k data -> before (resetAt data) clk ->
  exists s', middleware MemoryCache config req clk s
               = (Resolved (if valid_date (resetAt data)
                            then reply config (counted config (now clk) data) clk
                            else pass), s') /\
    holds s' k (counted config (now clk) data).
Proof.
  intros He Hk Hh Hb. destruct (consume_in_window _ _ _ _ Hh Hb) as (s' & Hc & Hh').
  exists s'. split; [|done]. by rewrite middleware_cases, He, Hk, Hc, counted_resetAt.
Qed.

(** A request that is not of the identity leaves its record alone. *)
Lemma step_other k req clk s data r s' :
  enabled config = false \/ extractApiKey req <> Some k ->
  holds s k data ->
  middleware MemoryCache config req clk s = (Resolved r, s') ->
  holds s' k data /\ (enabled config = false -> r = pass).
Proof.
  intros Hne Hh. rewrite middleware_cases.
  destruct (enabled config); [|by intros [= <- <-]].
  destruct Hne as [?|Hne]; [done|].
  destruct (extractApiKey req) as [k'|]; [|by intros [= <- <-]].
  rewrite consume_memory.
  destruct (transition _ _ _) as [[[|] d]|e]; intros [= <- <-]; split; try done.
  apply holds_written_other; [congruence|done].
Qed.

(** Any request handled before the end of the window keeps the record of
    the identity in the store, in the same window, and never lowers its
    count; a response to the identity reports the count of that record. *)
Lemma step_in_window k req clk s data r s' :
  holds s k data -> before (resetAt data) clk ->
  middleware MemoryCache config req clk s = (Resolved r, s') ->
  exists data', holds s' k data' /\ resetAt data' = resetAt data /\
    count data <= count data' /\
    (forall b, extractApiKey req = Some k ->
       header_num "X-RateLimit-Remaining" r = Some b ->
       b = Z.max 0 (points config - count data')).
Proof.
  intros Hh Hb Hm.
  destruct (enabled config) eqn:He.
  - destruct (decide (extractApiKey req = Some k)) as [Hk|Hk].
    + destruct (step_same _ _ _ _ _ He Hk Hh Hb) as (s1 & Hm' & Hh').
      rewrite Hm' in Hm. injection Hm as <- <-.
      exists (counted config (now clk) data).
      split; [done|]. split; [apply counted_resetAt|]. split; [apply counted_count|].
      intros b _. destruct (valid_date (resetAt data)); [|done].
      rewrite reply_remaining. by intros [= <-].
    + destruct (step_other k req clk s data r s' (or_intror Hk) Hh Hm) as [Hh' _].
      exists data. split; [done|]. split; [done|]. split; [lia|]. done.
  - destruct (step_other k req clk s data r s' (or_introl He) Hh Hm) as [Hh' Hr].
    exists data. split; [done|]. split; [done|]. split; [lia|].
    intros b _. by rewrite (Hr He).
Qed.

Lemma serve_in_window k trace : forall s data rs s',
  holds s k data ->
  Forall (fun p => before (resetAt data) (snd p)) trace ->
  serve MemoryCache config trace s = (Resolved rs, s') ->
  exists data', holds s' k data' /\ resetAt data' = resetAt data /\
    count data <= count data'.
Proof.
  induction trace as [|[req clk] trace IH]; intros s data rs s' Hh Hall Hs.
  - injection Hs as <- <-. exists data. by repeat split; try lia.
  - apply serve_cons_inv in Hs as (r & s1 & rs' & Hm & Hs & ->).
    apply Forall_cons in Hall as [Hb Hall]. simpl in Hb.
    destruct (step_in_window _ _ _ _ _ _ _ Hh Hb Hm) as (d1 & Hh1 & Hw1 & Hc1 & _).
    rewrite <- Hw1 in Hall.
    destruct (IH _ _ _ _ Hh1 Hall Hs) as (d2 & Hh2 & Hw2 & Hc2).
    exists d2. split; [done|]. split; [congruence|lia].
Qed.

(** *** The store keeps every record until its window ends *)

Lemma sound_empty : sound ∅.
Proof. intros key text e data H. by rewrite lookup_empty in H. Qed.

Lemma sound_written clk k data s :
  now clk <= RateLimit.at_set clk -> sound s -> sound (written clk k data s).
Proof.
  intros Hc Hs key text e d. unfold written.
  destruct (decide (keyPrefix +:+ k = key)) as [<-|Hne].
  - rewrite lookup_insert_eq. intros [= <- <-]. rewrite JSON_parse_stringify.
    intros [= <-]. pose proof (ttl_covers_window data (now clk)). lia.
  - rewrite lookup_insert_ne by done. apply Hs.
Qed.

Lemma sound_middleware req clk s r s' :
  now clk <= RateLimit.at_set clk -> sound s ->
  middleware MemoryCache config req clk s = (Resolved r, s') -> sound s'.
Proof.
  intros Hc Hs. rewrite middleware_cases.
  destruct (enabled config); [|by intros [= <- <-]].
  destruct (extractApiKey req) as [k|]; [|by intros [= <- <-]].
  rewrite consume_memory.
  destruct (transition _ _ _) as [[[|] d]|e]; intros [= <- <-]; try done.
  by apply sound_written.
Qed.

Lemma sound_serve trace : forall s rs s',
  Forall (fun p => now (snd p) <= RateLimit.at_set (snd p)) trace -> sound s ->
  serve MemoryCache config trace s = (Resolved rs, s') -> sound s'.
Proof.
  induction trace as [|[req clk] trace IH]; intros s rs s' Hall Hs Hr.
  - by injection Hr as <- <-.
  - apply serve_cons_inv in Hr as (r & s1 & rs' & Hm & Hr & ->).
    apply Forall_cons in Hall as [Hc Hall].
    eapply IH; [done| |done]. by eapply sound_middleware.
Qed.

(** The first response of an identity that reports a remaining allowance
    comes with the record it reports in the store. *)
Lemma reported_record k req clk s r s' a w :
  sound s -> now clk <= RateLimit.at_set clk -> extractApiKey req = Some k ->
  middleware MemoryCache config req clk s = (Resolved r, s') ->
  header_num "X-RateLimit-Remaining" r = Some a ->
  header_date "X-RateLimit-Reset" r = Some w ->
  exists data, holds s' k data /\ resetAt data = w /\
    a = Z.max 0 (points config - count data).
Proof.
  intros Hs Hc Hk. rewrite middleware_cases, Hk.
  destruct (enabled config); [|by intros [= <- <-]].
  rewrite consume_memory.
  destruct (transition _ _ _) as [[[|] d]|e] eqn:Et; intros [= <- <-]; try done;
    (destruct (valid_date (resetAt d)); [|done]);
    rewrite reply_remaining, reply_reset; intros [= <-] [= <-].
  - exists d. split; [by apply holds_written|done].
  - exists d. split; [|done].
    apply transition_early_return in Et as (text & Hl & Hp).
    apply live_Some in Hl as (e & Hl). exists text, e.
    split; [done|]. split; [done|]. by eapply Hs.
Qed.

(** C7. In a run of the middleware from an empty store, take a response
    to an identity that reports a remaining allowance [a] and the end [w]
    of its window. Whatever requests follow before [w], a later response to
    the same identity before [w] reports an allowance [b] that is not
    above [a], and no allowance reported is negative. *)
Theorem remaining_never_rises_within_window
    k prefix rs0 s0 q1 c1 r1 s1 mid rs s2 q2 c2 r2 s3 a w b :
  Forall (fun p => now (snd p) <= RateLimit.at_set (snd p)) prefix ->
  serve MemoryCache config prefix ∅ = (Resolved rs0, s0) ->
  extractApiKey q1 = Some k ->
  extractApiKey q2 = Some k ->
  now c1 <= RateLimit.at_set c1 ->
  middleware MemoryCache config q1 c1 s0 = (Resolved r1, s1) ->
  header_num "X-RateLimit-Remaining" r1 = Some a ->
  header_date "X-RateLimit-Reset" r1 = Some w ->
  Forall (fun p => before w (snd p)) (mid ++ [(q2, c2)]) ->
  serve MemoryCache config mid s1 = (Resolved rs, s2) ->
  middleware MemoryCache config q2 c2 s2 = (Resolved r2, s3) ->
  header_num "X-RateLimit-Remaining" r2 = Some b ->
  0 <= b <= a /\ 0 <= a.
Proof.
  intros Hpre Hs0 Hk1 Hk2 Hc1 Hm1 Ha Hw Hall Hmid Hm2 Hb.
  assert (sound s0) as Hsound by (eapply sound_serve; eauto using sound_empty).
  destruct (reported_record _ _ _ _ _ _ _ _ Hsound Hc1 Hk1 Hm1 Ha Hw)
    as (d1 & Hh1 & <- & ->).
  apply Forall_app in Hall as [Hall Hlast].
  apply Forall_cons in Hlast as [Hlast _]. simpl in Hlast.
  destruct (serve_in_window _ _ _ _ _ _ Hh1 Hall Hmid) as (d2 & Hh2 & Hw2 & Hc2).
  rewrite <- Hw2 in Hlast.
  destruct (step_in_window _ _ _ _ _ _ _ Hh2 Hlast Hm2) as (d3 & _ & _ & Hc3 & Hrem).
  rewrite (Hrem b Hk2 Hb). lia.
Qed.

(** Requests inside the window are admitted as long as the count stays
    within the quota; the record counts those of the identity. *)
Lemma serve_admits k trace : forall s data,
  enabled config = true ->
  holds s k data -> blockedUntil data = None ->
  Forall (fun p => before (resetAt data) (snd p)) trace ->
  count data + Z.of_nat (length (requests_of k trace)) <= points config ->
  exists rs s' data',
    serve MemoryCache config trace s = (Resolved rs, s') /\
    holds s' k data' /\ blockedUntil data' = None /\
    resetAt data' = resetAt data /\
    count data' = count data + Z.of_nat (length (requests_of k trace)) /\
    Forall2 (fun p r => extractApiKey (fst p) = Some k -> disposition r = Next) trace rs.
Proof.
  induction trace as [|[req clk] trace IH]; intros s data He Hh Hnb Hall Hq.
  - exists [], s, data. simpl. repeat split; first [done | lia | constructor].
  - apply Forall_cons in Hall as [Hb Hall]. simpl in Hb. unfold requests_of in *.
    destruct (decide (extractApiKey req = Some k)) as [Hk|Hk].
    + rewrite filter_cons_True in * by done. simpl length in *.
      destruct (step_same _ _ _ _ _ He Hk Hh Hb) as (s1 & Hm & Hh1).
      assert (counted config (now clk) data
              = {| count := count data + 1; resetAt := resetAt data;
                   blockedUntil := None |}) as Hd.
      { unfold counted, blocked_at, increment. rewrite Hnb.
        destruct (Z.gtb_spec (count data + 1) (points config)); [lia|done]. }
      rewrite Hd in Hm, Hh1.
      destruct (IH s1 _ He Hh1 eq_refl Hall) as (rs & s' & d' & Hs & Hh' & Hnb' & Hw' & Hc' & Hadm).
      { simpl. lia. }
      eexists (_ :: rs), s', d'.
      split; [by eapply serve_cons|]. split; [done|]. split; [done|].
      split; [done|]. split; [simpl in Hc'; lia|].
      constructor; [|done]. intros _.
      destruct (valid_date (resetAt data)); [|done]. by rewrite reply_disposition.
    + rewrite filter_cons_False in * by done.
      destruct (middleware_resolves MemoryCache config req clk s) as (r & s1 & Hm).
      destruct (step_other k req clk s data r s1 (or_intror Hk) Hh Hm) as [Hh1 _].
      destruct (IH s1 _ He Hh1 Hnb Hall Hq) as (rs & s' & d' & Hs & Hh' & Hnb' & Hw' & Hc' & Hadm).
      exists (r :: rs), s', d'.
      split; [by eapply serve_cons|]. repeat split; try done.
      constructor; [|done]. simpl. done.
Qed.

(** C1, as amended. Let a request of an identity open a window, and let
    the requests that follow inside the window, among any requests of
    other callers, bring the number of its requests to the quota. Then
    all of them are admitted; and the next request of the identity inside
    the window is answered 429 and its record is stored with
    [blockedUntil = now + blockDuration * 1000], provided the check of the
    block runs before that instant, which requires a positive
    [blockDuration]. The quota is below [2^53], where a double still
    counts by one, and the end of the window and the end of the block are
    valid dates. *)
Theorem quota_reached_then_rejected k s0 q0 c0 trace q c :
  enabled config = true ->
  extractApiKey q0 = Some k ->
  extractApiKey q = Some k ->
  opens_window config s0 k c0 ->
  now c0 <= RateLimit.at_set c0 ->
  Forall (fun p => before (now c0 + duration config * 1000) (snd p)) (trace ++ [(q, c)]) ->
  Z.of_nat (length (requests_of k ((q0, c0) :: trace))) = points config ->
  points config < 2 ^ 53 ->
  valid_date (now c0 + duration config * 1000) = true ->
  valid_date (now c + blockDuration config * 1000) = true ->
  0 <= now c <= at_check c ->
  at_check c < now c + blockDuration config * 1000 ->
  exists rs s1 r s2,
    serve MemoryCache config ((q0, c0) :: trace) s0 = (Resolved rs, s1) /\
    Forall2 (fun p r => extractApiKey (fst p) = Some k -> disposition r = Next)
            ((q0, c0) :: trace) rs /\
    middleware MemoryCache config q c s1 = (Resolved r, s2) /\
    disposition r = Json 429 (tooManyRequests
      (ceil_div (now c + blockDuration config * 1000 - at_retry c) 1000)) /\
    holds s2 k {| count := points config + 1;
                  resetAt := now c0 + duration config * 1000;
                  blockedUntil := Some (now c + blockDuration config * 1000) |}.
Proof.
  intros He Hk0 Hk Hopen Hc0 Hall Hq _ Hv _ Ht Hbd.
  apply Forall_app in Hall as [Hall Hlast].
  apply Forall_cons in Hlast as [Hlast _]. simpl in Hlast.
  unfold requests_of in Hq. rewrite filter_cons_True in Hq by done.
  simpl length in Hq. fold (requests_of k trace) in Hq.
  (* the request that opens the window *)
  assert (middleware MemoryCache config q0 c0 s0
          = (Resolved (reply config (fresh config (now c0)) c0),
             written c0 k (fresh config (now c0)) s0)) as Hm0.
  { apply middleware_consumed with k; [done..| |done]. rewrite consume_memory.
    unfold opens_window in Hopen. by rewrite Hopen. }
  pose proof (holds_written c0 k (fresh config (now c0)) s0 Hc0) as Hh0.
  (* the requests inside the window *)
  destruct (serve_admits k trace _ _ He Hh0 eq_refl Hall)
    as (rs & s1 & d1 & Hs & Hh1 & Hnb1 & Hw1 & Hc1 & Hadm).
  { simpl. lia. }
  simpl in Hw1, Hc1.
  (* the request over the quota *)
  rewrite <- Hw1 in Hlast.
  destruct (step_same _ _ _ _ _ He Hk Hh1 Hlast) as (s2 & Hm & Hh2).
  assert (counted config (now c) d1
          = {| count := points config + 1;
               resetAt := now c0 + duration config * 1000;
               blockedUntil := Some (now c + blockDuration config * 1000) |}) as Hd.
  { unfold counted, blocked_at, increment. rewrite Hnb1, Hw1.
    destruct (Z.gtb_spec (count d1 + 1) (points config)); [|lia].
    f_equal. lia. }
  rewrite Hd, Hw1, Hv in Hm. rewrite Hd in Hh2.
  eexists _, s1, _, s2. split; [by eapply serve_cons|].
  split; [constructor; [|done]; intros _; by rewrite reply_disposition|].
  split; [done|]. split; [|done].
  rewrite reply_disposition. unfold blocked_at. simpl.
  destruct (Z.eqb_spec (now c + blockDuration config * 1000) 0); [lia|].
  destruct (Z.gtb_spec (now c + blockDuration config * 1000) (at_check c)); [done|lia].
Qed.

End MemoryFacts.

(** No response reports a negative allowance, whatever the store does. *)
Lemma remaining_never_negative {S : Type} (cache : CacheService S) config req clk s r s' b :
  middleware cache config req clk s = (Resolved r, s') ->
  header_num "X-RateLimit-Remaining" r = Some b -> 0 <= b.
Proof.
  rewrite middleware_cases. destruct (enabled config); [|by intros [= <- <-]].
  destruct (extractApiKey req) as [k|]; [|by intros [= <- <-]].
  destruct (consume cache config k clk s) as [[d|e] s1]; intros [= <- <-]; [|done].
  destruct (valid_date (resetAt d)); [|done].
  rewrite reply_remaining. intros [= <-]. lia.
Qed.

(** C1, as stated, fails: with a quota of one and a cooldown of zero
    seconds, the second request of the window is counted, and passed on. *)
Lemma zero_cooldown_never_rejects :
  exists rs s,
    serve MemoryCache Examples.no_cooldown
      [(Examples.from_X, Examples.at_ 0); (Examples.from_X, Examples.at_ 1)] ∅
    = (Resolved rs, s) /\
    map disposition rs = [Next; Next] /\
    map (header_date "X-RateLimit-Reset") rs = [Some 60000; Some 60000] /\
    live s 1 "ratelimit:apikey:X"
    = Some (JSON_stringify {| count := 2; resetAt := 60000; blockedUntil := Some 1 |}).
Proof. by eexists _, _. Qed.

Lemma quota_reached_then_rejected_witness :
  opens_window Examples.two_per_minute ∅ "X" (Examples.at_ 0) /\
  Z.of_nat (length (requests_of "X"
     [(Examples.from_X, Examples.at_ 0); (Examples.from_X, Examples.at_ 10)])) = 2 /\
  exists rs s1 r s2,
    serve MemoryCache Examples.two_per_minute
      [(Examples.from_X, Examples.at_ 0); (Examples.from_X, Examples.at_ 10)] ∅
    = (Resolved rs, s1) /\
    Forall2 (fun p r => extractApiKey (fst p) = Some "X" -> disposition r = Next)
      [(Examples.from_X, Examples.at_ 0); (Examples.from_X, Examples.at_ 10)] rs /\
    middleware MemoryCache Examples.two_per_minute Examples.from_X (Examples.at_ 20) s1
    = (Resolved r, s2) /\
    disposition r = Json 429 (tooManyRequests (ceil_div (20 + 60 * 1000 - 20) 1000)) /\
    holds s2 "X" {| count := 2 + 1; resetAt := 0 + 60 * 1000;
                    blockedUntil := Some (20 + 60 * 1000) |}.
Proof.
  split; [reflexivity|]. split; [reflexivity|].
  apply (quota_reached_then_rejected Examples.two_per_minute "X" ∅
           Examples.from_X (Examples.at_ 0) [(Examples.from_X, Examples.at_ 10)]
           Examples.from_X (Examples.at_ 20)).
  - reflexivity.
  - reflexivity.
  - reflexivity.
  - reflexivity.
  - simpl. lia.
  - repeat constructor; simpl; lia.
  - reflexivity.
  - reflexivity.
  - reflexivity.
  - reflexivity.
  - simpl. lia.
  - simpl. lia.
Defined.

(** A window that ends beyond the last valid date: the record is counted
    and blocked as ever, but [toISOString] throws, so the request over the
    quota is passed on with no header set. *)
Lemma invalid_reset_date_never_rejects :
  exists rs s,
    serve MemoryCache Examples.endless_window
      [(Examples.from_X, Examples.at_ 0); (Examples.from_X, Examples.at_ 10)] ∅
    = (Resolved rs, s) /\
    rs = [pass; pass] /\
    live s 10 "ratelimit:apikey:X"
    = Some (JSON_stringify {| count := 2; resetAt := 8640000000001000;
                              blockedUntil := Some 60010 |}).
Proof. by eexists _, _. Qed.

Lemma remaining_never_rises_within_window_witness :
  exists r1 s1 r2 s3,
    middleware MemoryCache Examples.two_per_minute Examples.from_X (Examples.at_ 0) ∅
    = (Resolved r1, s1) /\
    header_num "X-RateLimit-Remaining" r1 = Some 1 /\
    header_date "X-RateLimit-Reset" r1 = Some 60000 /\
    middleware MemoryCache Examples.two_per_minute Examples.from_X (Examples.at_ 10) s1
    = (Resolved r2, s3) /\
    header_num "X-RateLimit-Remaining" r2 = Some 0 /\
    (0 <= 0 <= 1 /\ 0 <= 1).
Proof.
  eexists _, _, _, _.
  split; [reflexivity|]. split; [reflexivity|]. split; [reflexivity|].
  split; [reflexivity|]. split; [reflexivity|].
  eapply (remaining_never_rises_within_window Examples.two_per_minute "X"
            [] [] ∅ Examples.from_X (Examples.at_ 0) _ _ [] []
            _ Examples.from_X (Examples.at_ 10) _ _ 1 60000 0);
    first [ reflexivity
          | by constructor
          | simpl; lia
          | repeat constructor; simpl; lia ].
Defined.

(** A store that refuses the write of a first request: the request is
    passed on all the same. *)
Lemma refused_write_admits :
  store_error ReadOnlyCache Examples.defaults "X" (Examples.at_ 0) ∅ /\
  middleware ReadOnlyCache Examples.defaults Examples.from_X (Examples.at_ 0) ∅
  = (Resolved pass, ∅).
Proof.
  split; [|reflexivity].
  eapply set_throws with (dataStr := None); reflexivity.
Qed.

(** * Properties of the configuration *)

Section ConfigFacts.

Lemma falsy_not_signed n : falsy n = true -> gt_zero n = false /\ lt_zero n = false.
Proof.
  destruct n as [| |m e]; simpl; try done.
  destruct (Z.eqb_spec m 0) as [->|Hm]; simpl.
  - intros _. by destruct (underflows 0 e).
  - intros ->. by rewrite !andb_false_r.
Qed.

Lemma truthy_signed n : falsy n = false -> gt_zero n = negb (lt_zero n).
Proof.
  destruct n as [|neg|m e]; simpl; try done.
  intros [Hm Hu]%orb_false_elim. rewrite Hu. simpl. rewrite !andb_true_r.
  apply Z.eqb_neq in Hm.
  destruct (Z.ltb_spec 0 m), (Z.ltb_spec m 0); simpl; try done; lia.
Qed.

(** [Number(v) || d] for a positive default [d]. *)
Lemma number_or_falls_back v d : 0 < d -> falls_back v d (number_or v d).
Proof.
  intros Hd. unfold falls_back, number_or.
  destruct (falsy (Number v)) eqn:Hf.
  - apply falsy_not_signed in Hf as [_ Hn]. rewrite Hn.
    repeat split; try done; simpl.
    + destruct (Z.eqb_spec d 0); [lia|done].
    + destruct (Z.ltb_spec 0 d); [done|lia].
  - repeat split; try done. by apply truthy_signed.
Qed.

(** An unset variable, a text that is no number and a zero all count as
    falsy, so each of them yields the default. *)
Lemma unset_is_falsy : falsy (Number None) = true.
Proof. reflexivity. Qed.

Lemma not_a_number_is_falsy v : Number v = NaN -> falsy (Number v) = true.
Proof. by intros ->. Qed.

Lemma zero_is_falsy v e : Number v = Finite 0 e -> falsy (Number v) = true.
Proof. by intros ->. Qed.

(** C10, as amended. With no override passed to the constructor, each of
    [points], [duration] and [blockDuration] is its default (100, 60, 60)
    when its variable is unset, is no number or is zero, and is the
    number of the variable otherwise. The setting is thus never [NaN] or
    zero, and it is strictly positive unless the variable holds a
    negative number, which is taken as it is. *)
Theorem settings_fall_back_to_defaults env :
  falls_back (env !! "RATE_LIMIT_POINTS") 100 (points (constructor env None)) /\
  falls_back (env !! "RATE_LIMIT_DURATION") 60 (duration (constructor env None)) /\
  falls_back (env !! "RATE_LIMIT_BLOCK_DURATION") 60 (blockDuration (constructor env None)) /\
  (forall name, env !! name = None -> falsy (Number (env !! name)) = true) /\
  (forall name, Number (env !! name) = NaN -> falsy (Number (env !! name)) = true) /\
  (forall name e, Number (env !! name) = Finite 0 e -> falsy (Number (env !! name)) = true).
Proof.
  repeat split; try (apply number_or_falls_back; lia).
  - by intros name ->.
  - by intros name ->.
  - by intros name e ->.
Qed.

(** *** [Number] reads the decimal text of an integer as that integer *)

Lemma digit_not_white c : is_num_char c = true -> is_white c = false.
Proof. destruct c as [[] [] [] [] [] [] [] []]; by vm_compute. Qed.

Lemma digit_no_radix_mark c :
  is_num_char c = true ->
  Ascii.eqb c "x" || Ascii.eqb c "X" = false /\
  Ascii.eqb c "o" || Ascii.eqb c "O" = false /\
  Ascii.eqb c "b" || Ascii.eqb c "B" = false.
Proof. destruct c as [[] [] [] [] [] [] [] []]; by vm_compute. Qed.

Lemma digit_no_sign c :
  is_digit c = true ->
  Ascii.eqb c "-" = false /\ Ascii.eqb c "+" = false /\ Ascii.eqb c "I" = false
  /\ Ascii.eqb c "." = false.
Proof. destruct c as [[] [] [] [] [] [] [] []]; by vm_compute. Qed.

Lemma drop_white_id l : Forall (fun c => is_white c = false) l -> drop_white l = l.
Proof. destruct 1 as [|c l Hc _]; simpl; [done|]. by rewrite Hc. Qed.

Lemma trim_id l : Forall (fun c => is_white c = false) l -> trim l = l.
Proof.
  intros H. unfold trim. rewrite (drop_white_id l H).
  rewrite drop_white_id by (by apply Forall_rev). apply rev_involutive.
Qed.

Lemma span_digits_all l :
  Forall (fun c => is_digit c = true) l -> span_digits l = (l, []).
Proof. induction 1 as [|c l Hc _ IH]; simpl; [done|]. by rewrite Hc, IH. Qed.

Lemma uint_digits d :
  Forall (fun c => is_digit c = true) (list_ascii_of_string (NilEmpty.string_of_uint d)).
Proof. induction d; simpl; by constructor. Qed.

Lemma digits_from_acc d : forall p : positive,
  digits_from 10 (Z.pos p) (list_ascii_of_string (NilEmpty.string_of_uint d))
  = Some (Z.pos (Pos.of_uint_acc d p)).
Proof.
  induction d; intros p; simpl; [done|..];
    match goal with
    | |- context [Z.of_nat (nat_of_ascii ?c)] =>
        let v := eval vm_compute in (Z.of_nat (nat_of_ascii c)) in
        change (Z.of_nat (nat_of_ascii c)) with v
    end;
    match goal with
    | |- digits_from 10 ?a _ = _ =>
        match goal with
        | |- _ = Some (Z.pos (Pos.of_uint_acc _ ?q)) =>
            replace a with (Z.pos q) by lia
        end
    end; apply IHd.
Qed.

Lemma digits_from_zero d :
  digits_from 10 0 (list_ascii_of_string (NilEmpty.string_of_uint d)) = Some (Z.of_uint d).
Proof.
  unfold Z.of_uint. induction d; simpl; [done | apply IHd | ..]; apply digits_from_acc.
Qed.

Lemma unsigned_decimal_uint d :
  d <> Decimal.Nil ->
  unsigned_decimal (list_ascii_of_string (NilEmpty.string_of_uint d)) = Some (Z.of_uint d, 0).
Proof.
  intros Hd. unfold unsigned_decimal.
  rewrite (span_digits_all _ (uint_digits d)), app_nil_r.
  pose proof (digits_from_zero d) as Hv.
  destruct (list_ascii_of_string (NilEmpty.string_of_uint d)) as [|c l] eqn:El;
    [by destruct d|].
  by rewrite Hv.
Qed.

Lemma str_decimal_uint d :
  d <> Decimal.Nil ->
  str_decimal (list_ascii_of_string (NilEmpty.string_of_uint d)) = Finite (Z.of_uint d) 0.
Proof.
  intros Hd. unfold str_decimal.
  pose proof (unsigned_decimal_uint d Hd) as Hu. pose proof (uint_digits d) as Hall.
  destruct (list_ascii_of_string (NilEmpty.string_of_uint d)) as [|c l] eqn:El;
    [by destruct d|].
  apply Forall_cons in Hall as [Hc _].
  destruct (digit_no_sign c Hc) as (Hm & Hp & Hi & _).
  unfold signed. rewrite Hm, Hp. simpl. rewrite Hi. simpl. by rewrite Hu.
Qed.

Lemma str_decimal_minus_uint d :
  d <> Decimal.Nil ->
  str_decimal ("-"%char :: list_ascii_of_string (NilEmpty.string_of_uint d))
  = Finite (- Z.of_uint d) 0.
Proof.
  intros Hd. unfold str_decimal. simpl.
  pose proof (unsigned_decimal_uint d Hd) as Hu. pose proof (uint_digits d) as Hall.
  destruct (list_ascii_of_string (NilEmpty.string_of_uint d)) as [|c l] eqn:El;
    [by destruct d|].
  apply Forall_cons in Hall as [Hc _].
  destruct (digit_no_sign c Hc) as (_ & _ & Hi & _).
  simpl. rewrite Hi. simpl. by rewrite Hu.
Qed.

Lemma numeric_Forall s :
  numeric s -> Forall (fun c => is_num_char c = true) (list_ascii_of_string s).
Proof. induction s as [|c s IH]; simpl; [constructor|]. intros [Hc Hs]. auto. Qed.

(** Without blanks around it and without a radix mark, the text goes to
    [str_decimal] as it is. *)
Lemma StringToNumber_numeric s :
  s <> EmptyString -> numeric s ->
  StringToNumber s = str_decimal (list_ascii_of_string s).
Proof.
  intros Hne Hs. apply numeric_Forall in Hs. unfold StringToNumber.
  rewrite trim_id by (eapply Forall_impl; [done|]; apply digit_not_white).
  destruct (list_ascii_of_string s) as [|z [|b ds]] eqn:El; [by destruct s|done|].
  apply Forall_cons in Hs as [_ Hs]. apply Forall_cons in Hs as [Hb _].
  destruct (digit_no_radix_mark b Hb) as (-> & -> & ->).
  by rewrite !andb_false_r.
Qed.

Lemma Number_String_of z : Number (Some (String_of z)) = of_Z z.
Proof.
  unfold Number. rewrite StringToNumber_numeric
    by auto using String_of_nonempty, numeric_String_of.
  unfold String_of, of_Z. destruct z as [|p|p]; simpl Z.to_int; [done|..].
  - pose proof (DecimalPos.Unsigned.to_uint_nonnil p) as Hp.
    replace (NilZero.string_of_int (Decimal.Pos (Pos.to_uint p)))
      with (NilEmpty.string_of_uint (Pos.to_uint p))
      by (simpl; by destruct (Pos.to_uint p)).
    rewrite str_decimal_uint by done. unfold Z.of_uint.
    by rewrite DecimalPos.Unsigned.of_to.
  - pose proof (DecimalPos.Unsigned.to_uint_nonnil p) as Hp.
    replace (NilZero.string_of_int (Decimal.Neg (Pos.to_uint p)))
      with (String "-" (NilEmpty.string_of_uint (Pos.to_uint p)))
      by (simpl; by destruct (Pos.to_uint p)).
    simpl list_ascii_of_string. rewrite str_decimal_minus_uint by done.
    unfold Z.of_uint. by rewrite DecimalPos.Unsigned.of_to.
Qed.

(** A variable that holds the decimal text of an integer other than zero
    yields that integer, a negative one included. *)
Lemma decimal_setting_is_kept v z d :
  v = Some (String_of z) -> z <> 0 ->
  number_or v d = of_Z z /\ lt_zero (number_or v d) = (z <? 0).
Proof.
  intros -> Hz. unfold number_or. rewrite Number_String_of. simpl.
  destruct (Z.eqb_spec z 0); [done|]. simpl. split; [done|]. apply andb_true_r.
Qed.

(** *** The integers among the doubles *)

Lemma nearest_double_integer n :
  0 < n < 2 ^ 53 ->
  exists x, -52 <= x <= 0 /\ nearest_double n 1 = (n * 2 ^ (- x), x).
Proof.
  intros Hn. unfold nearest_double.
  change (Z.log2 1) with 0. rewrite Z.sub_0_r.
  pose proof (Z.log2_nonneg n) as H0.
  assert (Z.log2 n < 53) as H53 by (apply Z.log2_lt_pow2; lia).
  pose proof (Z.log2_spec n ltac:(lia)) as [Hlo _].
  destruct (Z.leb_spec 0 (Z.log2 n)); [|lia].
  rewrite Z.mul_1_l. destruct (Z.leb_spec (2 ^ Z.log2 n) n); [|lia].
  rewrite Z.max_l by lia.
  exists (Z.log2 n - 52). split; [lia|].
  destruct (Z.leb_spec 0 (Z.log2 n - 52)).
  - replace (Z.log2 n - 52) with 0 by lia.
    change (1 * 2 ^ 0) with 1. change (2 ^ (- 0)) with 1.
    by rewrite Z.div_1_r, Z.mod_1_r, Z.mul_1_r.
  - by rewrite Z.div_1_r, Z.mod_1_r.
Qed.

(** An integer below [2^53] in magnitude is a double as it is. *)
Lemma integral_of_Z p : - 2 ^ 53 < p < 2 ^ 53 -> integral (of_Z p) = Some p.
Proof.
  intros Hp. unfold integral, of_Z.
  destruct (Z.eqb_spec p 0) as [->|Hne]; [done|].
  change (0 <=? 0) with true. cbv iota.
  rewrite Z.pow_0_r, Z.mul_1_r.
  destruct (nearest_double_integer (Z.abs p) ltac:(lia)) as (x & Hx & ->).
  destruct (Z.ltb_spec 971 x); [lia|]. destruct (Z.eqb_spec x 971); [lia|]. simpl.
  assert (0 < 2 ^ (- x)) by (apply Z.pow_pos_nonneg; lia).
  destruct (Z.leb_spec 0 x).
  - replace x with 0 by lia. simpl. f_equal. lia.
  - rewrite Z.mod_mul by lia. simpl. rewrite Z.div_mul by lia. f_equal. lia.
Qed.

(** An environment that sets the three variables to decimal integers
    other than zero and below [2^53] in magnitude configures the limiter
    with exactly these integers. *)
Lemma integral_config_of_decimal_env env p d b :
  env !! "RATE_LIMIT_POINTS" = Some (String_of p) ->
  env !! "RATE_LIMIT_DURATION" = Some (String_of d) ->
  env !! "RATE_LIMIT_BLOCK_DURATION" = Some (String_of b) ->
  p <> 0 -> d <> 0 -> b <> 0 ->
  - 2 ^ 53 < p < 2 ^ 53 -> - 2 ^ 53 < d < 2 ^ 53 -> - 2 ^ 53 < b < 2 ^ 53 ->
  integral_config (constructor env None)
  = Some {| enabled := bool_decide (env !! "RATE_LIMIT_ENABLED" = Some "true");
            points := p; duration := d; blockDuration := b |}.
Proof.
  intros Hp Hd Hb Np Nd Nb Bp Bd Bb. unfold integral_config, constructor.
  cbn [points duration blockDuration enabled default no_override
       points_opt duration_opt blockDuration_opt enabled_opt].
  destruct (decimal_setting_is_kept _ p 100 Hp Np) as [-> _].
  destruct (decimal_setting_is_kept _ d 60 Hd Nd) as [-> _].
  destruct (decimal_setting_is_kept _ b 60 Hb Nb) as [-> _].
  by rewrite !integral_of_Z.
Qed.

End ConfigFacts.

(** C10, as stated, fails: a negative quota in the environment is kept,
    so the resolved [points] is not strictly positive. *)
Lemma negative_quota_is_kept :
  points (constructor Examples.negative_quota None) = Finite (-5) 0 /\
  gt_zero (points (constructor Examples.negative_quota None)) = false /\
  lt_zero (points (constructor Examples.negative_quota None)) = true /\
  integral_config (constructor Examples.negative_quota None)
  = Some {| enabled := true; points := -5; duration := 60; blockDuration := 60 |}.
Proof. repeat split; by vm_compute. Qed.

(** A quota of zero, an unset quota and a quota that is no number all
    yield the default of 100. *)
Lemma zero_quota_yields_default :
  points (constructor {[ "RATE_LIMIT_POINTS" := "0" ]} None) = of_Z 100 /\
  points (constructor ∅ None) = of_Z 100 /\
  points (constructor {[ "RATE_LIMIT_POINTS" := "many" ]} None) = of_Z 100 /\
  points (constructor {[ "RATE_LIMIT_POINTS" := "250" ]} None) = of_Z 250.
Proof. by repeat split. Qed.

(** * Further properties of the rate limiter *)

Section LimiterMore.
Context (config : RateLimitConfig Z).
Implicit Types (req : Request) (clk : RateLimit.Clock) (s : gmap string (string * Z)).


Lemma parsed_text_truthy text data :
  JSON_parse text = Some data -> truthy (Some text) = true.
Proof. by destruct text. Qed.

Lemma live_stored s k data e t :
  stored s k data e -> t < e ->
  exists text, live s t (keyPrefix +:+ k) = Some text /\ JSON_parse text = Some data.
Proof.
  intros (text & Hs & Hp) Ht. exists text. unfold live. rewrite Hs.
  by destruct (Z.ltb_spec t e); [|lia].
Qed.

Lemma transition_parsed text data t :
  JSON_parse text = Some data ->
  transition config t (Some text) =
  if blocked_at data t then Resolved (false, data)
  else if resetAt data <=? t then Resolved (true, fresh config t)
  else Resolved (true, increment config t data).
Proof.
  intros Hp. unfold transition. rewrite (parsed_text_truthy _ _ Hp). simpl.
  by rewrite Hp.
Qed.

(** A request only writes under the key of its own identity. *)
Lemma middleware_writes_own_key req clk s r s' key :
  middleware MemoryCache config req clk s = (Resolved r, s') ->
  (forall k, extractApiKey req = Some k -> key <> keyPrefix +:+ k) ->
  s' !! key = s !! key.
Proof.
  rewrite middleware_cases. destruct (enabled config); [|by intros [= <- <-]].
  destruct (extractApiKey req) as [k|]; [|by intros [= <- <-]].
  rewrite consume_memory.
  destruct (transition _ _ _) as [[[|] d]|e]; intros [= <- <-] Hk; try done.
  unfold written. rewrite lookup_insert_ne; [done|]. intros E. by apply (Hk k).
Qed.

Lemma blocked_step k req clk s data e b :
  enabled config = true -> extractApiKey req = Some k ->
  stored s k data e -> blockedUntil data = Some b -> b <> 0 ->
  during_block b e clk ->
  valid_date (resetAt data) = true ->
  middleware MemoryCache config req clk s = (Resolved (reply config data clk), s) /\
  disposition (reply config data clk)
  = Json 429 (tooManyRequests (ceil_div (b - at_retry clk) 1000)).
Proof.
  intros He Hk Hst Hb Hb0 (Hn & Hc & Hg) Hv.
  destruct (live_stored _ _ _ _ _ Hst Hg) as (text & Hl & Hp).
  assert (forall t, t < b -> blocked_at data t = true) as Hblocked.
  { intros t Ht. unfold blocked_at. rewrite Hb.
    destruct (Z.eqb_spec b 0); [done|]. simpl. by apply Z.gtb_lt. }
  split.
  - apply middleware_consumed with k; [done..| |done].
    rewrite consume_memory, Hl, (transition_parsed _ _ _ Hp). by rewrite Hblocked.
  - rewrite reply_disposition, Hblocked, Hb by done. done.
Qed.

(** X1. A request of a blocked identity, handled before the block ends, is
    answered 429 and changes nothing in the store: the count is not
    raised and the expiry is not renewed. The header still reports the
    allowance of the kept record, and [retryAfter] is the rest of the
    block in seconds, rounded up. The record is one that can be answered
    to the letter: its dates are valid and its numbers exact. *)
Theorem blocked_request_rejected_store_untouched k req clk s data e b :
  enabled config = true -> extractApiKey req = Some k ->
  stored s k data e -> blockedUntil data = Some b -> b <> 0 ->
  during_block b e clk ->
  answerable config data ->
  exists r,
    middleware MemoryCache config req clk s = (Resolved r, s) /\
    disposition r = Json 429 (tooManyRequests (ceil_div (b - at_retry clk) 1000)) /\
    header_num "X-RateLimit-Remaining" r = Some (Z.max 0 (points config - count data)) /\
    header_num "Retry-After" r = Some (ceil_div (b - at_retry clk) 1000).
Proof.
  intros He Hk Hst Hb Hb0 Hd (_ & _ & Hv & _).
  destruct (blocked_step _ _ _ _ _ _ _ He Hk Hst Hb Hb0 Hd Hv) as [Hm Hdisp].
  exists (reply config data clk). split; [done|]. split; [done|].
  split; [apply reply_remaining|].
  destruct Hd as (_ & Hc & _). unfold reply, respond, header_num, blocked_at. rewrite Hb.
  destruct (Z.eqb_spec b 0); [done|]. simpl.
  destruct (Z.gtb_spec b (at_check clk)); [|lia]. simpl.
  by rewrite lookup_insert_eq.
Qed.

(** X2. While a block lasts, whatever requests arrive, of the blocked
    identity or of others, every request of the blocked identity is
    answered 429 and its record stays in the store as it was: nothing but
    the passing of time ends a block. The record is one that can be
    answered to the letter. *)
Theorem block_lasts_until_it_ends k trace : forall s data e b,
  enabled config = true ->
  stored s k data e -> blockedUntil data = Some b -> b <> 0 ->
  answerable config data ->
  Forall (fun p => during_block b e (snd p)) trace ->
  exists rs s',
    serve MemoryCache config trace s = (Resolved rs, s') /\
    s' !! (keyPrefix +:+ k) = s !! (keyPrefix +:+ k) /\
    Forall2 (fun p r => extractApiKey (fst p) = Some k ->
                        exists body, disposition r = Json 429 body) trace rs.
Proof.
  induction trace as [|[req clk] trace IH]; intros s data e b He Hst Hb Hb0 Ha Hall.
  - exists [], s. by repeat split; try constructor.
  - apply Forall_cons in Hall as [Hd Hall]. simpl in Hd.
    destruct (decide (extractApiKey req = Some k)) as [Hk|Hk].
    + pose proof Ha as (_ & _ & Hv & _).
      destruct (blocked_step _ _ _ _ _ _ _ He Hk Hst Hb Hb0 Hd Hv) as [Hm Hdisp].
      destruct (IH s data e b He Hst Hb Hb0 Ha Hall) as (rs & s' & Hs & Hkey & Hrs).
      exists (reply config data clk :: rs), s'.
      split; [by eapply serve_cons|]. split; [done|].
      constructor; [|done]. intros _. eauto.
    + destruct (middleware_resolves MemoryCache config req clk s) as (r & s1 & Hm).
      assert (s1 !! (keyPrefix +:+ k) = s !! (keyPrefix +:+ k)) as Hsame.
      { eapply middleware_writes_own_key; [done|].
        intros k' Hk' E. apply key_inj in E. congruence. }
      assert (stored s1 k data e) as Hst1.
      { destruct Hst as (text & Hl & Hp). exists text. by rewrite Hsame. }
      destruct (IH s1 data e b He Hst1 Hb Hb0 Ha Hall) as (rs & s' & Hs & Hkey & Hrs).
      exists (r :: rs), s'.
      split; [by eapply serve_cons|]. split; [congruence|].
      constructor; [|done]. done.
Qed.

Lemma opens_window_step k req clk s :
  enabled config = true -> extractApiKey req = Some k ->
  opens_window config s k clk ->
  valid_date (now clk + duration config * 1000) = true ->
  middleware MemoryCache config req clk s
  = (Resolved (reply config (fresh config (now clk)) clk),
     written clk k (fresh config (now clk)) s).
Proof.
  intros He Hk Ho Hv. apply middleware_consumed with k; [done..| |done].
  rewrite consume_memory. unfold opens_window in Ho. by rewrite Ho.
Qed.

Lemma fresh_response clk :
  disposition (reply config (fresh config (now clk)) clk) = Next /\
  header_num "X-RateLimit-Remaining" (reply config (fresh config (now clk)) clk)
  = Some (Z.max 0 (points config - 1)) /\
  header_date "X-RateLimit-Reset" (reply config (fresh config (now clk)) clk)
  = Some (now clk + duration config * 1000).
Proof.
  split; [by rewrite reply_disposition|].
  split; [apply reply_remaining|apply reply_reset].
Qed.

(** X3. The first request of an identity, one that finds no live record
    in the store or an empty text, is admitted whatever the quota is, a
    quota of zero or below included: the quota is only compared when a
    record is counted up. The record is created with [count = 1] and
    [resetAt = now + duration * 1000]; the quota is at most [2^53] and
    the end of the window is a valid date, so that the headers are set
    and the allowance is exact. *)
Theorem first_request_admitted_whatever_the_quota k req clk s :
  enabled config = true -> extractApiKey req = Some k ->
  truthy (live s (RateLimit.at_get clk) (keyPrefix +:+ k)) = false ->
  points config <= 2 ^ 53 ->
  valid_date (now clk + duration config * 1000) = true ->
  exists r,
    middleware MemoryCache config req clk s
    = (Resolved r, written clk k {| count := 1;
                                    resetAt := now clk + duration config * 1000;
                                    blockedUntil := None |} s) /\
    disposition r = Next /\
    header_num "X-RateLimit-Remaining" r = Some (Z.max 0 (points config - 1)).
Proof.
  intros He Hk Hl _ Hv.
  assert (opens_window config s k clk) as Ho
    by (unfold opens_window, transition; by rewrite Hl).
  exists (reply config (fresh config (now clk)) clk).
  split; [by apply opens_window_step|].
  destruct (fresh_response clk) as (Hd & Hr & _). by split.
Qed.

(** X4. A request that finds a record whose window is over, and whose
    block, if there was one, has ended, starts a new window: whatever the
    old count was, the record is replaced by one with [count = 1], a new
    [resetAt] and no [blockedUntil], and the request is admitted. The
    quota is at most [2^53] and the end of the new window is a valid
    date. *)
Theorem expired_window_starts_anew k req clk s data e :
  enabled config = true -> extractApiKey req = Some k ->
  stored s k data e -> RateLimit.at_get clk < e ->
  resetAt data <= now clk ->
  blocked_at data (now clk) = false ->
  points config <= 2 ^ 53 ->
  valid_date (now clk + duration config * 1000) = true ->
  exists r,
    middleware MemoryCache config req clk s
    = (Resolved r, written clk k {| count := 1;
                                    resetAt := now clk + duration config * 1000;
                                    blockedUntil := None |} s) /\
    disposition r = Next /\
    header_num "X-RateLimit-Remaining" r = Some (Z.max 0 (points config - 1)).
Proof.
  intros He Hk Hst Hg Hw Hnb _ Hv.
  destruct (live_stored _ _ _ _ _ Hst Hg) as (text & Hl & Hp).
  assert (opens_window config s k clk) as Ho.
  { unfold opens_window. rewrite Hl, (transition_parsed _ _ _ Hp), Hnb.
    by destruct (Z.leb_spec (resetAt data) (now clk)); [|lia]. }
  exists (reply config (fresh config (now clk)) clk).
  split; [by apply opens_window_step|].
  destruct (fresh_response clk) as (Hd & Hr & _). by split.
Qed.



(** X7. What a request saves, a later read gets back: until the expiry
    the store answers a text that parses to the very record that was
    saved, and from the expiry on it answers nothing. *)
Theorem saved_record_reads_back k clk s data t :
  exists s',
    save MemoryCache (keyPrefix +:+ k) clk data s = (Resolved data, s') /\
    (t < RateLimit.at_set clk + ttl_of data (now clk) * 1000 ->
     exists text, cache_get MemoryCache t (keyPrefix +:+ k) s' = (Resolved (Some text), s')
                  /\ JSON_parse text = Some data) /\
    (RateLimit.at_set clk + ttl_of data (now clk) * 1000 <= t ->
     cache_get MemoryCache t (keyPrefix +:+ k) s' = (Resolved None, s')).
Proof.
  eexists. split; [reflexivity|]. simpl. unfold live. rewrite lookup_insert_eq.
  split; intros Ht.
  - exists (JSON_stringify data).
    destruct (Z.ltb_spec t (RateLimit.at_set clk + ttl_of data (now clk) * 1000)); [|lia].
    split; [done|apply JSON_parse_stringify].
  - by destruct (Z.ltb_spec t (RateLimit.at_set clk + ttl_of data (now clk) * 1000)); [lia|].
Qed.

(** X8. No two identities share a record: a request leaves the entry of
    every other identity exactly as it was, text and expiry, and a request
    without identity or to a disabled limiter leaves the whole store as it
    was. *)
Theorem request_leaves_other_identities_alone req clk s r s' :
  middleware MemoryCache config req clk s = (Resolved r, s') ->
  (forall k, extractApiKey req <> Some k ->
     s' !! (keyPrefix +:+ k) = s !! (keyPrefix +:+ k)) /\
  (extractApiKey req = None \/ enabled config = false -> s' = s).
Proof.
  intros Hm. split.
  - intros k Hk. eapply middleware_writes_own_key; [done|].
    intros k' Hk' E. apply key_inj in E. congruence.
  - revert Hm. rewrite middleware_cases. intros Hm [Hk|He].
    + rewrite Hk in Hm. destruct (enabled config); by injection Hm.
    + rewrite He in Hm. by injection Hm.
Qed.

(** *** The records of a run are well formed *)

Lemma well_formed_fresh t : 1 <= points config -> well_formed config (fresh config t).
Proof.
  intros Hp. split; simpl; [lia|]. split; [by intros [? ?]|lia].
Qed.

Lemma well_formed_increment t data :
  well_formed config data -> well_formed config (increment config t data).
Proof.
  intros [Hc Hb]. split; simpl; [lia|].
  destruct (Z.gtb_spec (count data + 1) (points config)).
  - split; [lia|by eexists].
  - split; [|lia]. intros Hs. apply Hb in Hs. lia.
Qed.

Lemma all_well_formed_empty : all_well_formed config ∅.
Proof. intros key text e data H. by rewrite lookup_empty in H. Qed.

(** The record [consume] resolves to is well formed when the store is. *)
Lemma consume_well_formed k clk s data s' :
  1 <= points config -> all_well_formed config s ->
  consume MemoryCache config k clk s = (Resolved data, s') ->
  well_formed config data /\ all_well_formed config s'.
Proof.
  intros Hp Hs. rewrite consume_memory.
  destruct (live s _ _) as [text|] eqn:Hl.
  - apply live_Some in Hl as (e & Hl).
    destruct (JSON_parse text) as [d|] eqn:Hparse.
    + pose proof (Hs _ _ _ _ Hl Hparse) as Hd.
      rewrite (transition_parsed _ _ _ Hparse).
      assert (forall d', well_formed config d' ->
                all_well_formed config (written clk k d' s)) as Hw.
      { intros d' Hd' key text' e' data'. unfold written.
        destruct (decide (keyPrefix +:+ k = key)) as [<-|Hne].
        - rewrite lookup_insert_eq. intros [= <- <-].
          rewrite JSON_parse_stringify. by intros [= <-].
        - rewrite lookup_insert_ne by done. apply Hs. }
      destruct (blocked_at d (now clk)); [by intros [= <- <-]|].
      destruct (resetAt d <=? now clk); intros [= <- <-].
      * split; [by apply well_formed_fresh|]. by apply Hw, well_formed_fresh.
      * split; [by apply well_formed_increment|]. by apply Hw, well_formed_increment.
    + unfold transition. destruct (truthy (Some text)); simpl.
      * by rewrite Hparse.
      * intros [= <- <-]. split; [by apply well_formed_fresh|].
        intros key text' e' data'. unfold written.
        destruct (decide (keyPrefix +:+ k = key)) as [<-|Hne].
        -- rewrite lookup_insert_eq. intros [= <- <-].
           rewrite JSON_parse_stringify. intros [= <-]. by apply well_formed_fresh.
        -- rewrite lookup_insert_ne by done. apply Hs.
  - unfold transition. simpl. intros [= <- <-].
    split; [by apply well_formed_fresh|].
    intros key text' e' data'. unfold written.
    destruct (decide (keyPrefix +:+ k = key)) as [<-|Hne].
    + rewrite lookup_insert_eq. intros [= <- <-].
      rewrite JSON_parse_stringify. intros [= <-]. by apply well_formed_fresh.
    + rewrite lookup_insert_ne by done. apply Hs.
Qed.

Lemma middleware_well_formed req clk s r s' :
  1 <= points config -> all_well_formed config s ->
  middleware MemoryCache config req clk s = (Resolved r, s') ->
  all_well_formed config s'.
Proof.
  intros Hp Hs. rewrite middleware_cases.
  destruct (enabled config); [|by intros [= <- <-]].
  destruct (extractApiKey req) as [k|]; [|by intros [= <- <-]].
  destruct (consume MemoryCache config k clk s) as [[d|e] s1] eqn:Hc; intros [= <- <-].
  - by destruct (consume_well_formed _ _ _ _ _ Hp Hs Hc).
  - revert Hc. rewrite consume_memory.
    by destruct (transition _ _ _) as [[[|] d]|e']; intros [= <- <-].
Qed.

Lemma serve_well_formed trace : forall s rs s',
  1 <= points config -> all_well_formed config s ->
  serve MemoryCache config trace s = (Resolved rs, s') ->
  all_well_formed config s'.
Proof.
  induction trace as [|[req clk] trace IH]; intros s rs s' Hp Hs Hr.
  - by injection Hr as <- <-.
  - apply serve_cons_inv in Hr as (r & s1 & rs' & Hm & Hr & ->).
    eapply IH; [done| |done]. by eapply middleware_well_formed.
Qed.

(** X9. With a quota of at least one, every record the limiter leaves in
    the store in a run from an empty store counts at least one request,
    and carries a [blockedUntil] exactly when its count is over the
    quota. *)
Theorem records_of_a_run_are_well_formed trace rs s key text e data :
  1 <= points config ->
  serve MemoryCache config trace ∅ = (Resolved rs, s) ->
  s !! key = Some (text, e) -> JSON_parse text = Some data ->
  1 <= count data /\ (is_Some (blockedUntil data) <-> points config < count data).
Proof.
  intros Hp Hs Hl Hparse.
  by apply (serve_well_formed trace ∅ rs s Hp all_well_formed_empty Hs key text e data).
Qed.

(** X10. The limiter never rejects a caller that is within its quota: in
    a run from an empty store with a quota of at least one, a 429 is only
    sent when the count of the caller's record is over the quota, and the
    allowance it reports is then zero. *)
Theorem rejected_only_over_quota trace rs s req clk r s' code body :
  1 <= points config ->
  serve MemoryCache config trace ∅ = (Resolved rs, s) ->
  middleware MemoryCache config req clk s = (Resolved r, s') ->
  disposition r = Json code body ->
  header_num "X-RateLimit-Remaining" r = Some 0 /\
  exists k data,
    extractApiKey req = Some k /\
    consume MemoryCache config k clk s = (Resolved data, s') /\
    points config < count data.
Proof.
  intros Hp Hs Hm Hd.
  pose proof (serve_well_formed trace ∅ rs s Hp all_well_formed_empty Hs) as Hwf.
  revert Hm. rewrite middleware_cases. destruct (enabled config); [|by intros [= <- <-]].
  destruct (extractApiKey req) as [k|]; [|by intros [= <- <-]].
  destruct (consume MemoryCache config k clk s) as [[d|e] s1] eqn:Hc;
    intros [= <- <-]; [|done].
  destruct (consume_well_formed _ _ _ _ _ Hp Hwf Hc) as [[Hc1 Hb] _].
  destruct (valid_date (resetAt d)); [|done].
  rewrite reply_disposition in Hd.
  assert (points config < count d) as Hover.
  { apply Hb. unfold blocked_at in Hd. destruct (blockedUntil d); [by eexists|done]. }
  split; [|by exists k, d].
  rewrite reply_remaining. f_equal. lia.
Qed.

Lemma accounts_for_counted t data n :
  accounts_for config data n ->
  accounts_for config (counted config t data) (n + 1) /\
  Z.max 0 (points config - count (counted config t data))
  = Z.max 0 (points config - (n + 1)).
Proof.
  intros (Hle & Hlt & Hb). unfold counted, blocked_at, accounts_for.
  destruct (blockedUntil data) as [b|] eqn:Eb.
  - assert (points config < count data) as Hover by (apply Hb; by eexists).
    destruct (negb (b =? 0) && (b >? t)).
    + rewrite Eb. repeat split; intros; lia.
    + unfold increment. rewrite Eb. simpl.
      destruct (Z.gtb_spec (count data + 1) (points config)); [|lia].
      repeat split; intros; lia.
  - unfold increment. rewrite Eb. simpl.
    destruct (Z.gtb_spec (count data + 1) (points config)).
    + repeat split; intros; lia.
    + repeat split; intros; try lia. by destruct H0.
Qed.

Lemma serve_counts k trace : forall s data n rs s',
  enabled config = true ->
  holds s k data -> accounts_for config data n ->
  valid_date (resetAt data) = true ->
  Forall (fun p => before (resetAt data) (snd p)) trace ->
  serve MemoryCache config trace s = (Resolved rs, s') ->
  forall j q c r,
    trace !! j = Some (q, c) -> extractApiKey q = Some k -> rs !! j = Some r ->
    header_num "X-RateLimit-Remaining" r
    = Some (Z.max 0 (points config
                     - (n + Z.of_nat (length (requests_of k (take (S j) trace)))))) /\
    header_date "X-RateLimit-Reset" r = Some (resetAt data).
Proof.
  induction trace as [|[req clk] trace IH]; intros s data n rs s' He Hh Ha Hv Hall Hs;
    [by intros j|].
  apply serve_cons_inv in Hs as (r0 & s1 & rs' & Hm & Hs & ->).
  apply Forall_cons in Hall as [Hb Hall]. simpl in Hb.
  destruct (decide (extractApiKey req = Some k)) as [Hk|Hk].
  - destruct (step_same config _ _ _ _ _ He Hk Hh Hb) as (s2 & Hm' & Hh').
    rewrite Hv in Hm'. rewrite Hm' in Hm. injection Hm as <- <-.
    destruct (accounts_for_counted (now clk) data n Ha) as [Ha' Hrem].
    intros [|j] q c r Hj Hq Hr; simpl in Hj, Hr.
    + injection Hj as <- <-. injection Hr as <-.
      rewrite reply_remaining, reply_reset, counted_resetAt.
      split; [|done]. rewrite Hrem. unfold requests_of. simpl take.
      rewrite filter_cons_True by done. simpl length. apply (f_equal Some). lia.
    + rewrite <- (counted_resetAt config (now clk) data) in Hall, Hv.
      destruct (IH _ _ _ _ _ He Hh' Ha' Hv Hall Hs j q c r Hj Hq Hr) as [H1 H2].
      rewrite counted_resetAt in H2. split; [|done]. rewrite H1.
      unfold requests_of. change (take (S (S j)) ((req, clk) :: trace))
        with ((req, clk) :: take (S j) trace).
      rewrite filter_cons_True by done. simpl length. apply (f_equal Some). lia.
  - destruct (step_other config k req clk s data r0 s1 (or_intror Hk) Hh Hm) as [Hh' _].
    intros [|j] q c r Hj Hq Hr; simpl in Hj, Hr.
    + injection Hj as <- <-. done.
    + destruct (IH _ _ _ _ _ He Hh' Ha Hv Hall Hs j q c r Hj Hq Hr) as [H1 H2].
      split; [|done]. rewrite H1.
      unfold requests_of. change (take (S (S j)) ((req, clk) :: trace))
        with ((req, clk) :: take (S j) trace).
      by rewrite filter_cons_False by done.
Qed.

(** X22. The window is fixed and the allowance counts down by one: from
    the request that opens a window, the [i]-th request of the identity
    handled before the window ends reports
    [X-RateLimit-Remaining = max(0, points - i)] and the same
    [X-RateLimit-Reset], the end of the window fixed by the first request,
    whether that request is admitted or rejected and whatever other
    callers do in between. The quota is at most [2^53] and the end of the
    window is a valid date. *)
Theorem allowance_counts_down_in_a_fixed_window k q0 c0 s0 trace rs s1 j q c r :
  enabled config = true ->
  extractApiKey q0 = Some k ->
  opens_window config s0 k c0 ->
  now c0 <= RateLimit.at_set c0 ->
  points config <= 2 ^ 53 ->
  valid_date (now c0 + duration config * 1000) = true ->
  Forall (fun p => before (now c0 + duration config * 1000) (snd p)) trace ->
  serve MemoryCache config ((q0, c0) :: trace) s0 = (Resolved rs, s1) ->
  ((q0, c0) :: trace) !! j = Some (q, c) ->
  extractApiKey q = Some k ->
  rs !! j = Some r ->
  header_num "X-RateLimit-Remaining" r
  = Some (Z.max 0 (points config
                   - Z.of_nat (length (requests_of k (take (S j) ((q0, c0) :: trace)))))) /\
  header_date "X-RateLimit-Reset" r = Some (now c0 + duration config * 1000).
Proof.
  intros He Hk0 Ho Hc0 _ Hv Hall Hs Hj Hq Hr.
  apply serve_cons_inv in Hs as (r0 & s' & rs' & Hm & Hs & ->).
  rewrite (opens_window_step _ _ _ _ He Hk0 Ho Hv) in Hm. injection Hm as <- <-.
  destruct j as [|j]; simpl in Hj, Hr.
  - injection Hj as <- <-. injection Hr as <-.
    destruct (fresh_response c0) as (_ & H1 & H2). split; [|done].
    rewrite H1. unfold requests_of. simpl take. by rewrite filter_cons_True.
  - pose proof (holds_written c0 k (fresh config (now c0)) s0 Hc0) as Hh.
    assert (accounts_for config (fresh config (now c0)) 1) as Ha.
    { split; simpl; [lia|]. split; [lia|]. by intros [? ?]. }
    destruct (serve_counts k trace _ _ 1 _ _ He Hh Ha Hv Hall Hs j q c r Hj Hq Hr)
      as [H1 H2].
    split; [|done]. rewrite H1. unfold requests_of.
    change (take (S (S j)) ((q0, c0) :: trace)) with ((q0, c0) :: take (S j) trace).
    rewrite filter_cons_True by done. simpl length. apply (f_equal Some). lia.
Qed.

(** X23. A record that does not parse is never repaired by the limiter:
    as long as the store keeps it, every request of its identity fails
    open, passed on without a header, and the entry stays as it is; only
    the expiry of the entry ends this. *)
Theorem corrupt_record_is_never_repaired k text e trace : forall s,
  s !! (keyPrefix +:+ k) = Some (text, e) ->
  text <> EmptyString -> JSON_parse text = None ->
  Forall (fun p => RateLimit.at_get (snd p) < e) trace ->
  exists rs s',
    serve MemoryCache config trace s = (Resolved rs, s') /\
    s' !! (keyPrefix +:+ k) = Some (text, e) /\
    Forall2 (fun p r => extractApiKey (fst p) = Some k -> r = pass) trace rs.
Proof.
  intros s Hl Hne Hp Hall. revert s Hl.
  induction trace as [|[req clk] trace IH]; intros s Hl.
  - exists [], s. by repeat split; try constructor.
  - apply Forall_cons in Hall as [Hg Hall]. simpl in Hg.
    destruct (middleware_resolves MemoryCache config req clk s) as (r & s1 & Hm).
    assert (s1 !! (keyPrefix +:+ k) = Some (text, e)
            /\ (extractApiKey req = Some k -> r = pass)) as [Hl1 Hr].
    { destruct (decide (extractApiKey req = Some k)) as [Hk|Hk].
      - revert Hm. rewrite middleware_cases, Hk.
        destruct (enabled config); [|by intros [= <- <-]].
        rewrite consume_memory. unfold live. rewrite Hl.
        destruct (Z.ltb_spec (RateLimit.at_get clk) e); [|lia].
        unfold transition. destruct text as [|ch text]; [done|]. simpl.
        rewrite Hp. by intros [= <- <-].
      - split; [|done]. rewrite <- Hl. eapply middleware_writes_own_key; [done|].
        intros k' Hk' E. apply key_inj in E. congruence. }
    destruct (IH Hall s1 Hl1) as (rs & s' & Hs & Hl' & Hrs).
    exists (r :: rs), s'. split; [by eapply serve_cons|]. split; [done|].
    by constructor.
Qed.

End LimiterMore.

(** * Further properties of the identity and of the mask *)

Section IdentityMore.

Lemma strip_prefix_i_app p : forall a x,
  strip_prefix_i p a = Some EmptyString -> strip_prefix_i p (a +:+ x) = Some x.
Proof.
  induction p as [|c p IH]; intros a x; simpl.
  - by intros [= ->].
  - destruct a as [|d a]; [done|].
    change (String d a +:+ x) with (String d (a +:+ x)). simpl.
    destruct (Ascii.eqb (upper c) (upper d)); [apply IH|done].
Qed.

Lemma span_space_app blanks token :
  all_space blanks = true -> leading_space token = false ->
  span_space (blanks +:+ token) = (blanks, token).
Proof.
  induction blanks as [|c blanks IH]; simpl.
  - intros _ Ht. destruct token as [|d token]; [done|].
    change (EmptyString +:+ String d token) with (String d token).
    simpl in *. by rewrite Ht.
  - intros [Hc Hb]%andb_true_iff Ht.
    change (String c blanks +:+ token) with (String c (blanks +:+ token)).
    simpl. by rewrite Hc, IH.
Qed.

(** X11. An authorization header made of the word [Bearer] in any case,
    one or more blanks, and a token that starts with no blank and holds no
    line break yields exactly that token; and when the credential header
    is absent or empty, the token is the identity of the request. *)
Theorem bearer_header_yields_its_token scheme blanks token req :
  strip_prefix_i "Bearer" scheme = Some EmptyString ->
  blanks <> EmptyString -> all_space blanks = true ->
  token <> EmptyString -> leading_space token = false ->
  no_line_terminator token = true ->
  bearer_match (scheme +:+ blanks +:+ token) = Some token /\
  (truthy (headers req !! "apikey") = false ->
   headers req !! "authorization" = Some (scheme +:+ blanks +:+ token) ->
   extractApiKey req = Some token).
Proof.
  intros Hs Hb Hsp Ht Hl Hn.
  assert (bearer_match (scheme +:+ blanks +:+ token) = Some token) as Hm.
  { unfold bearer_match. rewrite (strip_prefix_i_app _ _ _ Hs). simpl.
    rewrite (span_space_app _ _ Hsp Hl).
    destruct blanks as [|c blanks]; [done|]. destruct token as [|d token]; [done|].
    destruct blanks; by rewrite Hn. }
  split; [done|]. intros Hh Ha.
  rewrite extractApiKey_first_match. unfold candidates.
  apply non_empty_falsy in Hh. rewrite Hh, Ha. simpl. by rewrite Hm.
Qed.

Lemma non_empty_Some o k : non_empty o = Some k -> k <> EmptyString.
Proof. destruct o as [[|c t]|]; simpl; try done. by intros [= <-]. Qed.

(** X12. The identity of a request is never the empty text, whichever of
    the three sources it comes from, so a record is never stored under
    the bare prefix [ratelimit:apikey:]. *)
Theorem identity_is_never_empty req k :
  extractApiKey req = Some k ->
  k <> EmptyString /\ keyPrefix +:+ k <> keyPrefix.
Proof.
  rewrite extractApiKey_first_match. unfold candidates. intros H.
  assert (k <> EmptyString) as Hk.
  { simpl in H.
    destruct (non_empty (headers req !! "apikey")) as [h|] eqn:Eh.
    - injection H as <-. by apply non_empty_Some in Eh.
    - destruct (headers req !! "authorization" ≫= bearer_match) as [t|] eqn:Et.
      + injection H as <-. destruct (headers req !! "authorization") as [a|]; [|done].
        by apply bearer_match_nonempty with a.
      + destruct (non_empty (query req !! "apikey")) as [q|] eqn:Eq; [|done].
        injection H as <-. by apply non_empty_Some in Eq. }
  split; [done|]. intros E. apply Hk.
  apply (String.app_inj keyPrefix). by rewrite E.
Qed.

Lemma substring_whole (b : string) : String.substring 0 (String.length b) b = b.
Proof. induction b as [|c b IH]; simpl; [done|]. by rewrite IH. Qed.

Lemma substring_prefix (a x : string) :
  String.substring 0 (String.length a) (a +:+ x) = a.
Proof.
  induction a as [|c a IH].
  - by destruct x.
  - change (String c a +:+ x) with (String c (a +:+ x)). simpl. by rewrite IH.
Qed.

Lemma substring_skip (a x : string) n :
  String.substring (String.length a) n (a +:+ x) = String.substring 0 n x.
Proof.
  induction a as [|c a IH]; [done|].
  change (String c a +:+ x) with (String c (a +:+ x)). simpl. apply IH.
Qed.

(** X13. A key of four, then [n], then four characters is masked as its
    first four characters, three stars and its last four when [n] is at
    least one, whatever the characters in between and however many they
    are; a key of exactly eight characters, like every shorter one, is
    masked as three stars alone. *)
Theorem mask_shows_first_and_last_four a m b k :
  (String.length a = 4%nat -> String.length b = 4%nat ->
   maskApiKey (a +:+ m +:+ b)
   = match m with
     | EmptyString => "***"
     | String _ _ => a +:+ "***" +:+ b
     end) /\
  ((String.length k <= 8)%nat -> maskApiKey k = "***").
Proof.
  split.
  - intros Ha Hb. unfold maskApiKey, substring_from.
    rewrite !length_append, Ha, Hb.
    destruct m as [|c m].
    + done.
    + simpl String.length.
      destruct (Nat.leb_spec (4 + (S (String.length m) + 4)) 8); [lia|].
      rewrite <- Ha at 1. rewrite substring_prefix.
      replace (4 + (S (String.length m) + 4) - 4)%nat
        with (String.length (a +:+ String c m)) by (rewrite length_append, Ha; simpl; lia).
      replace (4 + (S (String.length m) + 4) - String.length (a +:+ String c m))%nat
        with (String.length b) by (rewrite length_append, Ha, Hb; simpl; lia).
      replace (a +:+ String c m +:+ b) with ((a +:+ String c m) +:+ b)
        by apply append_assoc.
      by rewrite substring_skip, substring_whole.
  - intros Hk. unfold maskApiKey. by destruct (Nat.leb_spec (String.length k) 8); [|lia].
Qed.

End IdentityMore.

(** * Further properties of the configuration *)

Section FactoryMore.
Context {S : Type} (cache : CacheService S).

(** X14. The limiter is off unless [RATE_LIMIT_ENABLED] is exactly the
    text [true]: with the variable unset or holding anything else, and no
    override, the middleware the factory returns passes every request on
    without a header and without a call to the store, whatever the other
    variables hold. *)
Theorem limiter_is_off_unless_enabled_is_true env req clk (s : S) :
  env !! "RATE_LIMIT_ENABLED" <> Some "true" ->
  enabled (constructor env None) = false /\
  exists mw,
    createRateLimitMiddleware env cache None req clk = Some mw /\
    mw s = (Resolved pass, s).
Proof.
  intros Hoff.
  assert (enabled (constructor env None) = false) as He
    by (simpl; by apply bool_decide_eq_false).
  split; [done|]. exists (ret pass).
  unfold createRateLimitMiddleware. by rewrite He.
Qed.

(** X15. An environment that sets the three variables to the decimal
    texts of integers other than zero and below [2^53] in magnitude,
    negative ones included, yields a middleware that limits with exactly
    these integers. *)
Theorem factory_reads_decimal_settings env p d b req clk :
  env !! "RATE_LIMIT_POINTS" = Some (String_of p) ->
  env !! "RATE_LIMIT_DURATION" = Some (String_of d) ->
  env !! "RATE_LIMIT_BLOCK_DURATION" = Some (String_of b) ->
  p <> 0 -> d <> 0 -> b <> 0 ->
  - 2 ^ 53 < p < 2 ^ 53 -> - 2 ^ 53 < d < 2 ^ 53 -> - 2 ^ 53 < b < 2 ^ 53 ->
  createRateLimitMiddleware env cache None req clk
  = Some (middleware cache
            {| enabled := bool_decide (env !! "RATE_LIMIT_ENABLED" = Some "true");
               points := p; duration := d; blockDuration := b |} req clk).
Proof.
  intros Hp Hd Hb Np Nd Nb Bp Bd Bb.
  unfold createRateLimitMiddleware.
  rewrite (integral_config_of_decimal_env env p d b) by done.
  change (enabled (constructor env None))
    with (bool_decide (env !! "RATE_LIMIT_ENABLED" = Some "true")).
  by destruct (bool_decide _).
Qed.

End FactoryMore.

(** From [2^53] on a decimal is rounded to the nearest double, ties to
    the even one, and a decimal too large for a double is an infinity:
    the setting is the rounded number, not the decimal. *)
Lemma decimal_setting_is_rounded :
  integral (Number (Some "9007199254740993")) = Some (2 ^ 53) /\
  integral (Number (Some "9007199254740995")) = Some (2 ^ 53 + 4) /\
  integral (Number (Some "1e23")) = Some 99999999999999991611392 /\
  integral (Number (Some "1e400")) = None /\
  integral (Number (Some "0.5")) = None.
Proof. repeat split; by vm_compute. Qed.

(** * Further properties of the health reporter *)

Section HealthMore.
Import Health.
Context {S : Type}.
Implicit Types (this : CustomHealthController S) (clk : Clock) (s : S).

Lemma open_state_iff i :
  open_state i = true <-> exists w, i = Some w /\ connectionStatus w = Some "open".
Proof.
  destruct i as [[[state|]]|]; simpl; split; try done.
  - intros H%String.eqb_eq. subst. by eexists.
  - intros (w & [= <-] & [= ->]). done.
  - by intros (w & [= <-] & ?).
  - by intros (w & ? & _).
Qed.

(** X16. When the registry can be read, the instances probe reports [ok]
    with a tally that adds up: [connected] counts the entries that are an
    instance whose connection state is exactly [open], every other entry,
    a [null] or an instance without connection status included, counts as
    disconnected, and [connected + disconnected = total]. A registry that
    is [undefined] gives a tally of zero. *)
Theorem instances_tally_adds_up this s monitor instances :
  waMonitor this = Some monitor ->
  waInstances monitor = Resolved instances ->
  exists i n,
    checkInstances this s = (Resolved i, s) /\
    status i = "ok" /\
    n = Z.of_nat (length (filter (fun x => open_state x = true) (default [] instances))) /\
    (forall x, open_state x = true <->
               exists w, x = Some w /\ connectionStatus w = Some "open") /\
    total i = Some (Z.of_nat (length (default [] instances))) /\
    connected i = Some n /\
    disconnected i = Some (Z.of_nat (length (default [] instances)) - n) /\
    0 <= n <= Z.of_nat (length (default [] instances)) /\
    (instances = None -> n = 0 /\ total i = Some 0).
Proof.
  intros Hm Hi. unfold checkInstances. rewrite Hm. unfold try_catch. rewrite Hi.
  set (l := default [] instances).
  set (c := length (filter (fun x => open_state x = true) l)).
  assert (c <= length l)%nat as Hle by apply length_filter.
  exists {| status := "ok"; message := None; latency := None;
            total := Some (Z.of_nat (length l));
            connected := Some (Z.of_nat c);
            disconnected := Some (Z.of_nat (length l) - Z.of_nat c);
            error := None |}, (Z.of_nat c).
  split; [done|]. split; [done|]. split; [done|].
  split; [apply open_state_iff|].
  split; [done|]. split; [done|]. split; [done|]. split; [lia|].
  intros ->. unfold c, l. simpl. done.
Qed.

(** X17. The database probe never throws and never touches the store. It
    reports [disabled] exactly when no repository was handed to the
    controller, [error] with the text of the exception exactly when the
    read of at most one row throws, and [ok] otherwise, with the latency
    measured between its two readings of the clock. *)
Theorem database_probe_contains_errors this clk s :
  exists d,
    checkDatabase this clk s = (Resolved d, s) /\
    (status d = "disabled" <-> prismaRepository this = None) /\
    (status d = "error" <->
       exists repo e, prismaRepository this = Some repo /\
         instance_findMany repo 1 = Thrown e /\ message d = Some e) /\
    (status d = "ok" <->
       exists repo u, prismaRepository this = Some repo /\
         instance_findMany repo 1 = Resolved u /\
         latency d = Some (db_end clk - db_start clk)).
Proof.
  unfold checkDatabase. destruct (prismaRepository this) as [repo|].
  - unfold try_catch. destruct (instance_findMany repo 1) as [u|e] eqn:E.
    + eexists. split; [reflexivity|]. simpl. repeat split; try done.
      * intros (repo' & e & [= <-] & He & _). congruence.
      * intros _. by exists repo, u.
    + eexists. split; [reflexivity|]. simpl. repeat split; try done.
      * intros _. by exists repo, e.
      * intros (repo' & u & [= <-] & Hu & _). congruence.
  - eexists. split; [reflexivity|]. simpl. repeat split; try done.
    + by intros (repo & e & ? & _).
    + by intros (repo & u & ? & _).
Qed.

(** X18. Readiness and the detailed check never disagree: on the same
    collaborators, store and clock, one answers 200 exactly when the other
    does, [ready] is true exactly when [status] is [healthy], and both
    leave the store in the same state. *)
Theorem readiness_agrees_with_check this proc clk s :
  exists code body code' body' s',
    check this proc clk s = (Resolved (code, body), s') /\
    readiness this clk s = (Resolved (code', body'), s') /\
    code = code' /\
    (ready body' = true <-> report_status body = "healthy") /\
    (code = 200 <-> ready body' = true).
Proof.
  destruct (checkDatabase_resolves this clk s) as (d & Hd & _).
  destruct (checkRedis_resolves this clk s) as (r & s' & Hr & _).
  destruct (checkInstances_resolves this s') as (i & Hi).
  unfold check, readiness, try_catch, bind, settle. rewrite Hd, Hr, Hi.
  destruct (String.eqb (status d) "ok"), (String.eqb (status r) "ok"); simpl;
    eexists _, _, _, _, _; (split; [reflexivity|]); (split; [reflexivity|]);
    simpl; by repeat split.
Qed.

Lemma String_of_inj a b : String_of a = String_of b -> a = b.
Proof.
  intros H. pose proof (int_of_String_of a) as Ha. rewrite H, int_of_String_of in Ha.
  injection Ha as Ha. by apply DecimalZ.to_int_inj.
Qed.

(** X19. The key of the cache probe is unique per millisecond and no
    finer: two probes use the same key exactly when their readings of
    [Date.now()] for the key are equal; and the key never falls among the
    keys of the rate limiter. *)
Theorem probe_key_unique_per_millisecond clk1 clk2 apiKey :
  (testKey clk1 = testKey clk2 <-> redis_key clk1 = redis_key clk2) /\
  testKey clk1 <> keyPrefix +:+ apiKey.
Proof.
  split; [split|].
  - unfold testKey. intros H. apply String.app_inj in H. by apply String_of_inj.
  - unfold testKey. by intros ->.
  - unfold testKey, keyPrefix. discriminate.
Qed.

End HealthMore.

(** * The health probe and the rate limiter on one store *)

Section ProbeAndLimiter.
Context (config : RateLimitConfig Z).
Implicit Types (this : Health.CustomHealthController (gmap string (string * Z)))
               (s : gmap string (string * Z)).

Lemma probe_key_not_limiter_key hclk k : Health.testKey hclk <> keyPrefix +:+ k.
Proof. unfold Health.testKey, keyPrefix. discriminate. Qed.

Lemma checkRedis_memory this hclk s :
  Health.cache this = Some MemoryCache ->
  exists r, Health.checkRedis this hclk s = (Resolved r, delete (Health.testKey hclk) s)
            /\ Health.status r = "ok".
Proof.
  intros Hc. unfold Health.checkRedis. rewrite Hc. eexists. split.
  - unfold try_catch, bind. simpl. by rewrite delete_insert_eq.
  - reflexivity.
Qed.

Lemma check_memory this proc hclk s :
  Health.cache this = Some MemoryCache ->
  exists code body,
    Health.check this proc hclk s = (Resolved (code, body), delete (Health.testKey hclk) s).
Proof.
  intros Hc.
  destruct (checkDatabase_resolves this hclk s) as (d & Hd & _).
  destruct (checkRedis_memory this hclk s Hc) as (r & Hr & _).
  destruct (checkInstances_resolves this (delete (Health.testKey hclk) s)) as (i & Hi).
  unfold Health.check, try_catch, bind, settle. rewrite Hd, Hr, Hi. by eexists _, _.
Qed.

Lemma readiness_memory this hclk s :
  Health.cache this = Some MemoryCache ->
  exists code body,
    Health.readiness this hclk s = (Resolved (code, body), delete (Health.testKey hclk) s).
Proof.
  intros Hc.
  destruct (checkDatabase_resolves this hclk s) as (d & Hd & _).
  destruct (checkRedis_memory this hclk s Hc) as (r & Hr & _).
  unfold Health.readiness, try_catch, bind, settle. rewrite Hd, Hr.
  destruct (negb _); by eexists _, _.
Qed.

(** X20. On a store that works, a health request cleans up after itself:
    after the detailed check, and after readiness, the store is the one
    before without the probe key, whatever lay under that key before. The
    record of every rate-limited identity is left as it was. *)
Theorem health_request_leaves_only_probe_key_gone this proc hclk s :
  Health.cache this = Some MemoryCache ->
  exists code body code' body',
    Health.check this proc hclk s
    = (Resolved (code, body), delete (Health.testKey hclk) s) /\
    Health.readiness this hclk s
    = (Resolved (code', body'), delete (Health.testKey hclk) s) /\
    delete (Health.testKey hclk) s !! Health.testKey hclk = None /\
    (forall key, key <> Health.testKey hclk ->
       delete (Health.testKey hclk) s !! key = s !! key) /\
    (forall k, delete (Health.testKey hclk) s !! (keyPrefix +:+ k)
               = s !! (keyPrefix +:+ k)).
Proof.
  intros Hc.
  destruct (check_memory this proc hclk s Hc) as (code & body & H1).
  destruct (readiness_memory this hclk s Hc) as (code' & body' & H2).
  exists code, body, code', body'. split; [done|]. split; [done|].
  split; [apply lookup_delete_eq|]. split.
  - intros key Hk. by apply lookup_delete_ne.
  - intros k. apply lookup_delete_ne. apply probe_key_not_limiter_key.
Qed.

(** X21. A health request does not change what the rate limiter answers:
    a request handled after a detailed check gets the response it would
    have got without the check, and the records of all identities end up
    the same. *)
Theorem health_check_does_not_disturb_limiter this proc hclk s x s1 req clk r1 s1' r s' :
  Health.cache this = Some MemoryCache ->
  Health.check this proc hclk s = (Resolved x, s1) ->
  middleware MemoryCache config req clk s1 = (Resolved r1, s1') ->
  middleware MemoryCache config req clk s = (Resolved r, s') ->
  r1 = r /\
  forall k, s1' !! (keyPrefix +:+ k) = s' !! (keyPrefix +:+ k).
Proof.
  intros Hc Hx.
  destruct (check_memory this proc hclk s Hc) as (code & body & Hx').
  rewrite Hx' in Hx. injection Hx as _ <-.
  assert (forall t k, live (delete (Health.testKey hclk) s) t (keyPrefix +:+ k)
                      = live s t (keyPrefix +:+ k)) as Hlive.
  { intros t k. unfold live. rewrite lookup_delete_ne; [done|].
    apply probe_key_not_limiter_key. }
  rewrite !middleware_cases. destruct (enabled config).
  - destruct (extractApiKey req) as [k|].
    + rewrite !consume_memory, Hlive.
      destruct (transition _ _ _) as [[[|] d]|e]; intros [= <- <-] [= <- <-];
        (split; [done|]); intros k'; unfold written;
        try (rewrite lookup_delete_ne; [done|apply probe_key_not_limiter_key]).
      destruct (decide (keyPrefix +:+ k = keyPrefix +:+ k')) as [->|Hne].
      * by rewrite !lookup_insert_eq.
      * rewrite !lookup_insert_ne by done.
        rewrite lookup_delete_ne; [done|apply probe_key_not_limiter_key].
    + intros [= <- <-] [= <- <-]. split; [done|]. intros k'.
      rewrite lookup_delete_ne; [done|apply probe_key_not_limiter_key].
  - intros [= <- <-] [= <- <-]. split; [done|]. intros k'.
    rewrite lookup_delete_ne; [done|apply probe_key_not_limiter_key].
Qed.

End ProbeAndLimiter.

(** * The further properties at concrete inputs *)

Lemma blocked_request_rejected_store_untouched_witness :
  stored Examples.blocked_store "X" Examples.over_quota 60020 /\
  answerable Examples.two_per_minute Examples.over_quota /\
  exists r,
    middleware MemoryCache Examples.two_per_minute Examples.from_X (Examples.at_ 30)
      Examples.blocked_store = (Resolved r, Examples.blocked_store) /\
    disposition r = Json 429 (tooManyRequests (ceil_div (60020 - 30) 1000)) /\
    header_num "X-RateLimit-Remaining" r = Some (Z.max 0 (2 - 3)) /\
    header_num "Retry-After" r = Some (ceil_div (60020 - 30) 1000).
Proof.
  assert (stored Examples.blocked_store "X" Examples.over_quota 60020) as H
    by (eexists; split; reflexivity).
  assert (answerable Examples.two_per_minute Examples.over_quota) as Ha.
  { split; [simpl; lia|]. split; [simpl; lia|]. split; [reflexivity|].
    by intros b [= <-]. }
  split; [exact H|]. split; [exact Ha|].
  apply (blocked_request_rejected_store_untouched Examples.two_per_minute "X"
           Examples.from_X (Examples.at_ 30) Examples.blocked_store
           Examples.over_quota 60020 60020);
    first [reflexivity | exact H | exact Ha | discriminate | repeat split; simpl; lia].
Defined.

Lemma block_lasts_until_it_ends_witness :
  exists rs s',
    serve MemoryCache Examples.two_per_minute
      [(Examples.from_X, Examples.at_ 30); (Examples.from_Y, Examples.at_ 40);
       (Examples.from_X, Examples.at_ 50)] Examples.blocked_store
    = (Resolved rs, s') /\
    s' !! (keyPrefix +:+ "X") = Examples.blocked_store !! (keyPrefix +:+ "X") /\
    Forall2 (fun p r => extractApiKey (fst p) = Some "X" ->
                        exists body, disposition r = Json 429 body)
      [(Examples.from_X, Examples.at_ 30); (Examples.from_Y, Examples.at_ 40);
       (Examples.from_X, Examples.at_ 50)] rs.
Proof.
  assert (answerable Examples.two_per_minute Examples.over_quota) as Ha.
  { split; [simpl; lia|]. split; [simpl; lia|]. split; [reflexivity|].
    by intros b [= <-]. }
  apply (block_lasts_until_it_ends Examples.two_per_minute "X" _
           Examples.blocked_store Examples.over_quota 60020 60020);
    first [reflexivity | discriminate | exact Ha
          | eexists; split; reflexivity
          | repeat constructor; simpl; lia].
Defined.

Lemma first_request_admitted_whatever_the_quota_witness :
  exists r,
    middleware MemoryCache Examples.zero_quota Examples.from_X (Examples.at_ 0) ∅
    = (Resolved r, written (Examples.at_ 0) "X"
                     {| count := 1; resetAt := 0 + 60 * 1000; blockedUntil := None |} ∅) /\
    disposition r = Next /\
    header_num "X-RateLimit-Remaining" r = Some (Z.max 0 (0 - 1)).
Proof.
  apply (first_request_admitted_whatever_the_quota Examples.zero_quota "X"
           Examples.from_X (Examples.at_ 0) ∅);
    first [reflexivity | simpl; lia].
Defined.

Lemma expired_window_starts_anew_witness :
  exists r,
    middleware MemoryCache Examples.two_per_minute Examples.from_X (Examples.at_ 60100)
      Examples.stale_store
    = (Resolved r, written (Examples.at_ 60100) "X"
                     {| count := 1; resetAt := 60100 + 60 * 1000; blockedUntil := None |}
                     Examples.stale_store) /\
    disposition r = Next /\
    header_num "X-RateLimit-Remaining" r = Some (Z.max 0 (2 - 1)).
Proof.
  apply (expired_window_starts_anew Examples.two_per_minute "X" Examples.from_X
           (Examples.at_ 60100) Examples.stale_store Examples.stale 60500);
    first [reflexivity | eexists; split; reflexivity | simpl; lia].
Defined.



Lemma request_leaves_other_identities_alone_witness :
  exists r s',
    middleware MemoryCache Examples.two_per_minute Examples.from_Y (Examples.at_ 30)
      Examples.blocked_store = (Resolved r, s') /\
    (forall k, extractApiKey Examples.from_Y <> Some k ->
       s' !! (keyPrefix +:+ k) = Examples.blocked_store !! (keyPrefix +:+ k)) /\
    (extractApiKey Examples.from_Y = None \/ enabled Examples.two_per_minute = false ->
     s' = Examples.blocked_store).
Proof.
  eexists _, _. split; [reflexivity|].
  eapply (request_leaves_other_identities_alone Examples.two_per_minute
            Examples.from_Y (Examples.at_ 30) Examples.blocked_store). reflexivity.
Defined.

Lemma records_of_a_run_are_well_formed_witness :
  exists rs s text e data,
    serve MemoryCache Examples.two_per_minute Examples.three_from_X ∅ = (Resolved rs, s) /\
    s !! "ratelimit:apikey:X" = Some (text, e) /\
    JSON_parse text = Some data /\
    count data = 3 /\
    1 <= count data /\ (is_Some (blockedUntil data) <-> 2 < count data).
Proof.
  eexists _, _, _, _, _. split; [reflexivity|]. split; [reflexivity|].
  split; [reflexivity|]. split; [reflexivity|].
  eapply (records_of_a_run_are_well_formed Examples.two_per_minute
            Examples.three_from_X _ _ "ratelimit:apikey:X");
    first [reflexivity | simpl; lia].
Defined.

Lemma rejected_only_over_quota_witness :
  exists rs s r s' body,
    serve MemoryCache Examples.two_per_minute Examples.three_from_X ∅ = (Resolved rs, s) /\
    middleware MemoryCache Examples.two_per_minute Examples.from_X (Examples.at_ 30) s
    = (Resolved r, s') /\
    disposition r = Json 429 body /\
    header_num "X-RateLimit-Remaining" r = Some 0 /\
    exists k data,
      extractApiKey Examples.from_X = Some k /\
      consume MemoryCache Examples.two_per_minute k (Examples.at_ 30) s
      = (Resolved data, s') /\
      2 < count data.
Proof.
  eexists _, _, _, _, _. split; [reflexivity|]. split; [reflexivity|].
  split; [reflexivity|].
  eapply (rejected_only_over_quota Examples.two_per_minute Examples.three_from_X);
    first [reflexivity | simpl; lia].
Defined.

Lemma bearer_header_yields_its_token_witness :
  bearer_match "bearer  abc" = Some "abc" /\
  extractApiKey Examples.with_bearer = Some "abc".
Proof.
  destruct (bearer_header_yields_its_token "bearer" "  " "abc" Examples.with_bearer)
    as [H1 H2]; try first [reflexivity | discriminate].
  split; [exact H1|]. apply H2; reflexivity.
Defined.

Lemma identity_is_never_empty_witness :
  extractApiKey Examples.from_X = Some "X" /\
  "X" <> EmptyString /\ keyPrefix +:+ "X" <> keyPrefix.
Proof.
  split; [reflexivity|].
  apply (identity_is_never_empty Examples.from_X "X"). reflexivity.
Defined.

Lemma limiter_is_off_unless_enabled_is_true_witness :
  enabled (constructor Examples.shouted None) = false /\
  exists mw,
    createRateLimitMiddleware Examples.shouted MemoryCache None
      Examples.from_X (Examples.at_ 30) = Some mw /\
    mw Examples.blocked_store = (Resolved pass, Examples.blocked_store).
Proof.
  apply (limiter_is_off_unless_enabled_is_true MemoryCache Examples.shouted
           Examples.from_X (Examples.at_ 30) Examples.blocked_store).
  discriminate.
Defined.

Lemma factory_reads_decimal_settings_witness :
  createRateLimitMiddleware Examples.documented MemoryCache None
    Examples.from_X (Examples.at_ 0)
  = Some (middleware MemoryCache
            {| enabled := bool_decide (Examples.documented !! "RATE_LIMIT_ENABLED"
                                       = Some "true");
               points := 100; duration := 60; blockDuration := 60 |}
            Examples.from_X (Examples.at_ 0)).
Proof.
  apply (factory_reads_decimal_settings MemoryCache Examples.documented 100 60 60);
    first [reflexivity | discriminate | lia].
Defined.

Lemma instances_tally_adds_up_witness :
  exists i,
    Health.checkInstances Examples.working ∅ = (Resolved i, ∅) /\
    Health.status i = "ok" /\
    Health.total i = Some 4 /\ Health.connected i = Some 1 /\
    Health.disconnected i = Some 3.
Proof.
  destruct (instances_tally_adds_up Examples.working ∅ Examples.registry _
              eq_refl eq_refl)
    as (i & n & Hi & Hs & Hn & _ & Ht & Hc & Hd & _).
  exists i. subst n. by repeat split.
Defined.

Lemma health_request_leaves_only_probe_key_gone_witness :
  exists code body code' body',
    Health.check Examples.working Examples.process Examples.still Examples.blocked_store
    = (Resolved (code, body),
       delete (Health.testKey Examples.still) Examples.blocked_store) /\
    Health.readiness Examples.working Examples.still Examples.blocked_store
    = (Resolved (code', body'),
       delete (Health.testKey Examples.still) Examples.blocked_store) /\
    delete (Health.testKey Examples.still) Examples.blocked_store
      !! Health.testKey Examples.still = None /\
    (forall key, key <> Health.testKey Examples.still ->
       delete (Health.testKey Examples.still) Examples.blocked_store !! key
       = Examples.blocked_store !! key) /\
    (forall k, delete (Health.testKey Examples.still) Examples.blocked_store
                 !! (keyPrefix +:+ k)
               = Examples.blocked_store !! (keyPrefix +:+ k)).
Proof.
  apply (health_request_leaves_only_probe_key_gone Examples.working Examples.process
           Examples.still Examples.blocked_store). reflexivity.
Defined.

Lemma health_check_does_not_disturb_limiter_witness :
  exists x s1 r1 s1' r s',
    Health.check Examples.working Examples.process Examples.still Examples.blocked_store
    = (Resolved x, s1) /\
    middleware MemoryCache Examples.two_per_minute Examples.from_X (Examples.at_ 30) s1
    = (Resolved r1, s1') /\
    middleware MemoryCache Examples.two_per_minute Examples.from_X (Examples.at_ 30)
      Examples.blocked_store = (Resolved r, s') /\
    r1 = r /\
    forall k, s1' !! (keyPrefix +:+ k) = s' !! (keyPrefix +:+ k).
Proof.
  eexists _, _, _, _, _, _. split; [reflexivity|]. split; [reflexivity|].
  split; [reflexivity|].
  eapply (health_check_does_not_disturb_limiter Examples.two_per_minute
            Examples.working Examples.process Examples.still Examples.blocked_store
            _ _ Examples.from_X (Examples.at_ 30));
    reflexivity.
Defined.

Lemma allowance_counts_down_in_a_fixed_window_witness :
  exists rs s1 r,
    serve MemoryCache Examples.two_per_minute
      [(Examples.from_X, Examples.at_ 0); (Examples.from_Y, Examples.at_ 5);
       (Examples.from_X, Examples.at_ 10); (Examples.from_X, Examples.at_ 20)] ∅
    = (Resolved rs, s1) /\
    rs !! 3%nat = Some r /\
    header_num "X-RateLimit-Remaining" r = Some (Z.max 0 (2 - 3)) /\
    header_date "X-RateLimit-Reset" r = Some (0 + 60 * 1000).
Proof.
  eexists _, _, _. split; [reflexivity|]. split; [reflexivity|].
  eapply (allowance_counts_down_in_a_fixed_window Examples.two_per_minute "X"
            Examples.from_X (Examples.at_ 0) ∅
            [(Examples.from_Y, Examples.at_ 5); (Examples.from_X, Examples.at_ 10);
             (Examples.from_X, Examples.at_ 20)] _ _ 3 Examples.from_X (Examples.at_ 20));
    first [reflexivity | simpl; lia | repeat constructor; simpl; lia].
Defined.

Lemma corrupt_record_is_never_repaired_witness :
  exists rs s',
    serve MemoryCache Examples.defaults
      [(Examples.from_X, Examples.at_ 0); (Examples.from_X, Examples.at_ 59000)]
      Examples.corrupted = (Resolved rs, s') /\
    s' !! (keyPrefix +:+ "X") = Some ("{count:", 60000) /\
    Forall2 (fun p r => extractApiKey (fst p) = Some "X" -> r = pass)
      [(Examples.from_X, Examples.at_ 0); (Examples.from_X, Examples.at_ 59000)] rs.
Proof.
  apply (corrupt_record_is_never_repaired Examples.defaults "X" "{count:" 60000);
    first [reflexivity | discriminate | repeat constructor; simpl; lia].
Defined.
